(** * CrystalGrowthTracker: geometry helpers, the project store and a widget

    A shallow embedding of [cgt/util/scenegraphitems.py],
    [cgt/model/cgtproject.py] and [cgt/gui/regionslinesframeswidget.py].
    Python floats and Qt's [qreal] are IEEE binary64 numbers: they are
    modelled by Rocq's primitive floats, whose operations are the same
    binary64 operations, NaN, infinities and signed zeros included.  Python
    integers are unbounded: they are modelled by [Z].  Exceptions are values
    of a result type; a conversion that C++ leaves undefined yields [None].

    The file has two parts: the definitions (Python and Qt first, then the
    three modules of the repository, then the notions the theorems are stated
    with), and the theorems, module by module. *)

From Stdlib Require Import ZArith QArith Qround Qpower Zpower List Bool Lia Lqa
  Floats Ascii.
From stdpp Require Import base option gmap strings pretty.
Import ListNotations.

Local Open Scope Z_scope.

(** ** Binary64 numbers

    The exact value of a float and the conversions between floats and
    integers that Python and C++ perform. *)

Module Float.

(** The rational number a finite float denotes; an infinity and a NaN
    denote none. *)
Definition SF2Q (f : spec_float) : option Q :=
  match f with
  | S754_zero _ => Some 0%Q
  | S754_finite s m e => Some (inject_Z (cond_Zopp s (Zpos m)) * Qpower 2 e)%Q
  | _ => None
  end.

Definition value (x : float) : option Q := SF2Q (Prim2SF x).

(** [floor], [ceil] and the truncating conversion to an integer.  An
    infinity and a NaN have none: C++ leaves their conversion undefined. *)
Definition floor (x : float) : option Z := Qfloor <$> value x.
Definition ceil (x : float) : option Z := Qceiling <$> value x.
Definition trunc (x : float) : option Z :=
  (fun v => if Qle_bool 0 v then Qfloor v else Qceiling v) <$> value x.

(** The float nearest to an integer (ties to even), as a specification
    value and as a float. *)
Definition Z2SF (n : Z) : spec_float := binary_normalize prec emax n 0 false.
Definition of_Z (n : Z) : float := SF2Prim (Z2SF n).

(** Powers of two around the width of a mantissa: 2^52, 2^53, 2^54. *)
Definition two52 : Z := 4503599627370496.
Definition two53 : Z := 9007199254740992.
Definition two54 : Z := 18014398509481984.

(** The float that holds [t * 2^k] exactly, for an integer [t] below 2^53
    in magnitude: the mantissa is [t] shifted to 53 bits. *)
Definition scaled (t k : Z) : spec_float :=
  match t with
  | 0 => S754_zero false
  | _ => S754_finite (t <? 0) (Z.to_pos (Z.abs t * 2 ^ (53 - Zdigits2 t)))
                     (Zdigits2 t + k - 53)
  end.

(** A float that is not below zero: its sign bit is clear, or it is a
    NaN. *)
Definition unsigned (f : spec_float) : bool :=
  match f with
  | S754_zero s | S754_infinity s | S754_finite s _ _ => negb s
  | S754_nan => true
  end.

(** A zero of either sign, or a NaN. *)
Definition null (f : spec_float) : bool :=
  match f with
  | S754_zero _ | S754_nan => true
  | _ => false
  end.

(** Two floats that hold the same number, or one of them a NaN. *)
Definition alike (f g : spec_float) : bool :=
  match SFcompare f g with
  | Some Eq | None => true
  | _ => false
  end.

End Float.

(** ** Python: exceptions, results and numbers *)

Module Py.

(** The exceptions the modelled code can raise. *)
Inductive exn : Type :=
| ZeroDivisionError
| OverflowError
| ArithmeticError (msg : string)
| ValueError
| TypeError
| IndexError
| KeyError (key : string)
| AttributeError.

(** A call either returns a value or raises. *)
Inductive result (A : Type) : Type :=
| Ok (a : A)
| Raise (e : exn).
Arguments Ok {A} a.
Arguments Raise {A} e.

Definition bind {A B : Type} (r : result A) (k : A -> result B) : result B :=
  match r with
  | Ok a => k a
  | Raise e => Raise e
  end.

(** [x / y] on two floats: Python raises on a zero divisor (of either
    sign) before dividing. *)
Definition float_truediv (x y : float) : result float :=
  if (y =? 0)%float then Raise ZeroDivisionError else Ok (x / y)%float.

(** An integer as an exact, not yet rounded, binary number. *)
Definition exact (n : Z) : spec_float :=
  match n with
  | Z0 => S754_zero false
  | Zpos p => S754_finite false p 0
  | Zneg p => S754_finite true p 0
  end.

(** [a / b] on two integers, true division: Python raises on a zero
    divisor, returns the correctly rounded quotient, and raises when that
    quotient is too large for a float. *)
Definition int_truediv (a b : Z) : result float :=
  if (b =? 0)%Z then Raise ZeroDivisionError
  else
    match SFdiv prec emax (exact a) (exact b) with
    | S754_infinity _ => Raise OverflowError
    | q => Ok (SF2Prim q)
    end.

(** [min(a, b)]: the first argument unless the second is smaller. *)
Definition min (a b : float) : float :=
  if (b <? a)%float then b else a.

(** [m] is the smaller of [a] and [b]. *)
Definition smaller_of (m a b : float) : Prop :=
  (m = a \/ m = b) /\ (m <=? a)%float = true /\ (m <=? b)%float = true.

(** [math.isfinite]. *)
Definition isfinite (x : float) : bool := is_finite x.

(** [l[i]] for a non-negative index. *)
Definition getitem {A : Type} (l : list A) (i : nat) : result A :=
  match nth_error l i with
  | Some a => Ok a
  | None => Raise IndexError
  end.

(** [math.sqrt]: a negative argument, minus infinity included, is a
    domain error; a NaN passes through. *)
Definition math_sqrt (x : float) : result float :=
  if (x <? 0)%float then Raise ValueError else Ok (sqrt x).

(** [range(n)]: the integers from 0 up to [n], none when [n] is not
    positive. *)
Definition range (n : Z) : list Z := seqZ 0 n.

(** An integer as an f-string writes it: in decimal. *)
Definition format_int (n : Z) : string := pretty n.

(** A text without a space. *)
Fixpoint spaceless (s : string) : bool :=
  match s with
  | EmptyString => true
  | String c rest => negb (Ascii.eqb c " "%char) && spaceless rest
  end.

End Py.

Notation "'do' x <- c1 ; c2" := (Py.bind c1 (fun x => c2))
  (at level 10, x name, c1 at level 100, c2 at level 200,
   format "'[v' 'do'  x  <-  c1 ; '/' c2 ']'").

(** ** Qt value classes

    Qt is not part of the repository.  Its value classes are modelled from
    Qt 5's documented behaviour: [qreal] is [double], [int] conversions
    truncate.  Qt's [int] is a 32-bit machine integer whose overflow C++
    leaves undefined; the model computes in [Z], which agrees with Qt as long
    as every integer computed fits: the theorems about integer rectangles
    carry that as a hypothesis.  A conversion of a float that has no integer
    value (an infinity, a NaN) is undefined too: it yields [None].  Qt
    compares points and lines of floats up to a tolerance, and its setters
    return early when the new value compares equal to the old one. *)

Module QPointF.
Record t : Type := make { x : float; y : float }.

Definition add (p q : t) : t := make (x p + x q)%float (y p + y q)%float.
Definition sub (p q : t) : t := make (x p - x q)%float (y p - y q)%float.
Definition mul (p : t) (c : float) : t := make (x p * c)%float (y p * c)%float.
End QPointF.

Module QPoint.
Record t : Type := make { x : Z; y : Z }.

Definition add (p q : t) : t := make (x p + x q) (y p + y q).
Definition sub (p q : t) : t := make (x p - x q) (y p - y q).
End QPoint.

Module QLineF.
Record t : Type := make { p1 : QPointF.t; p2 : QPointF.t }.

Definition x1 (l : t) : float := QPointF.x (p1 l).
Definition y1 (l : t) : float := QPointF.y (p1 l).
Definition x2 (l : t) : float := QPointF.x (p2 l).
Definition y2 (l : t) : float := QPointF.y (p2 l).
Definition of_coords (x1 y1 x2 y2 : float) : t :=
  make (QPointF.make x1 y1) (QPointF.make x2 y2).

(** The horizontal and the vertical component of the line's vector. *)
Definition dx (l : t) : float := (x2 l - x1 l)%float.
Definition dy (l : t) : float := (y2 l - y1 l)%float.
End QLineF.

Module QRectF.
(** Qt stores the left and top edges and the size. *)
Record t : Type := make { xp : float; yp : float; w : float; h : float }.

Definition left (r : t) : float := xp r.
Definition top (r : t) : float := yp r.
Definition right (r : t) : float := (xp r + w r)%float.
Definition bottom (r : t) : float := (yp r + h r)%float.
Definition width (r : t) : float := w r.
Definition height (r : t) : float := h r.

(** Two rectangles hold equal numbers. *)
Definition eqb (r s : t) : bool :=
  (xp r =? xp s)%float && (yp r =? yp s)%float
  && (w r =? w s)%float && (h r =? h s)%float.
End QRectF.

Module QRect.
(** Qt stores the two corner pixels, both inside the rectangle. *)
Record t : Type := corners { x1 : Z; y1 : Z; x2 : Z; y2 : Z }.

Definition make (x y w h : Z) : t := corners x y (x + w - 1) (y + h - 1).
Definition left (r : t) : Z := x1 r.
Definition top (r : t) : Z := y1 r.
Definition width (r : t) : Z := x2 r - x1 r + 1.
Definition height (r : t) : Z := y2 r - y1 r + 1.
Definition setWidth (r : t) (w : Z) : t :=
  corners (x1 r) (y1 r) (x1 r + w - 1) (y2 r).
Definition setHeight (r : t) (h : Z) : t :=
  corners (x1 r) (y1 r) (x2 r) (y1 r + h - 1).
Definition translate (r : t) (p : QPoint.t) : t :=
  corners (x1 r + QPoint.x p) (y1 r + QPoint.y p)
          (x2 r + QPoint.x p) (y2 r + QPoint.y p).

(** The four corner pixels. *)
Definition topLeft (r : t) : QPoint.t := QPoint.make (x1 r) (y1 r).
Definition topRight (r : t) : QPoint.t := QPoint.make (x2 r) (y1 r).
Definition bottomLeft (r : t) : QPoint.t := QPoint.make (x1 r) (y2 r).
Definition bottomRight (r : t) : QPoint.t := QPoint.make (x2 r) (y2 r).
End QRect.

Module Qt.

(** The values of Qt's [int]. *)
Definition int_range (n : Z) : Prop := -2147483648 <= n <= 2147483647.

(** [qAbs] and [qMin], as Qt's templates write them. *)
Definition qAbs (t : float) : float := if (0 <=? t)%float then t else (- t)%float.
Definition qMin (a b : float) : float := if (a <? b)%float then a else b.

(** [qFuzzyIsNull]: at most 0.000000000001 in magnitude (the binary64
    number nearest to it, written in hexadecimal). *)
Definition qFuzzyIsNull (d : float) : bool :=
  (qAbs d <=? 0x1.19799812dea11p-40)%float.

(** [qFuzzyCompare]: equal up to one part in 10^12 of the smaller
    magnitude. *)
Definition qFuzzyCompare (p1 p2 : float) : bool :=
  (qAbs (p1 - p2) * 1000000000000 <=? qMin (qAbs p1) (qAbs p2))%float.

(** [operator==] on one coordinate of two points (Qt 5.15): when either
    is zero the difference is compared with zero, otherwise the two are
    compared with each other.  Earlier releases of Qt 5 compare the
    difference with zero in both cases; the two agree when either coordinate
    is zero. *)
Definition coordinate_equal (c1 c2 : float) : bool :=
  if (c1 =? 0)%float || (c2 =? 0)%float then qFuzzyIsNull (c1 - c2)
  else qFuzzyCompare c1 c2.

(** [operator==] on [QPointF] and on [QLineF]. *)
Definition point_equal (p q : QPointF.t) : bool :=
  coordinate_equal (QPointF.x p) (QPointF.x q)
  && coordinate_equal (QPointF.y p) (QPointF.y q).
Definition line_equal (l m : QLineF.t) : bool :=
  point_equal (QLineF.p1 l) (QLineF.p1 m)
  && point_equal (QLineF.p2 l) (QLineF.p2 m).

Definition qFloor (v : float) : option Z := Float.floor v.
Definition qCeil (v : float) : option Z := Float.ceil v.

(** [qRound]: Qt 5 rounds through truncating casts. *)
Definition qRound (d : float) : option Z :=
  if (0 <=? d)%float then Float.trunc (d + 0.5)%float
  else
    n ← Float.trunc (d - 1)%float;
    m ← Float.trunc (d - Float.of_Z n + 0.5)%float;
    Some (m + n).

(** [QPointF::toPoint]. *)
Definition toPoint (p : QPointF.t) : option QPoint.t :=
  x ← qRound (QPointF.x p);
  y ← qRound (QPointF.y p);
  Some (QPoint.make x y).

(** [QRectF::toAlignedRect]: the smallest integer rectangle around the
    edges. *)
Definition toAlignedRect (r : QRectF.t) : option QRect.t :=
  xmin ← qFloor (QRectF.xp r);
  xmax ← qCeil (QRectF.xp r + QRectF.w r)%float;
  ymin ← qFloor (QRectF.yp r);
  ymax ← qCeil (QRectF.yp r + QRectF.h r)%float;
  Some (QRect.make xmin ymin (xmax - xmin) (ymax - ymin)).

(** A painter path, as the list of its elements. *)
Inductive PathElement : Type :=
| MoveTo (p : QPointF.t)
| LineTo (p : QPointF.t).
Definition QPainterPath : Type := list PathElement.

(** [QPoint::operator/=] with a [qreal] divisor: each coordinate is
    converted to a float, divided and rounded back with [qRound]. *)
Definition divide_point (p : QPoint.t) (c : float) : option QPoint.t :=
  x ← qRound (Float.of_Z (QPoint.x p) / c)%float;
  y ← qRound (Float.of_Z (QPoint.y p) / c)%float;
  Some (QPoint.make x y).

End Qt.

(** ** cgt/util/markers.py and cgt/imagelinesegment.py

    Neither module is among the sources; the declarations below are
    modelled from their uses in [scenegraphitems]. *)

Module markers.

(** Modelled from the spec: the enum of keys under which an item's
    frame, region, type and centre metadata are stored with [setData].  Its
    members are distinct keys. *)
Inductive ItemDataTypes : Type :=
| ITEM_TYPE
| FRAME_NUMBER
| REGION_INDEX
| CROSS_CENTRE.

#[global] Instance ItemDataTypes_eq_dec : EqDecision ItemDataTypes.
Proof. solve_decision. Defined.

Definition ItemDataTypes_code (k : ItemDataTypes) : nat :=
  match k with
  | ITEM_TYPE => 0
  | FRAME_NUMBER => 1
  | REGION_INDEX => 2
  | CROSS_CENTRE => 3
  end%nat.

Definition ItemDataTypes_of_code (n : nat) : ItemDataTypes :=
  match n with
  | 0 => ITEM_TYPE
  | 1 => FRAME_NUMBER
  | 2 => REGION_INDEX
  | _ => CROSS_CENTRE
  end%nat.

#[global] Instance ItemDataTypes_countable : Countable ItemDataTypes.
Proof.
  apply (inj_countable' ItemDataTypes_code ItemDataTypes_of_code).
  intros k; destruct k; reflexivity.
Defined.

(** Modelled from the spec: the enum of marker kinds. *)
Inductive MarkerTypes : Type :=
| LINE
| POINT.

End markers.

Module imagelinesegment.

(** Modelled from the spec: a difference record; the code reads its
    average pixel separation only. *)
Record ImageLineDifference : Type := { average : float }.

End imagelinesegment.

(** ** Python objects *)

Module PyObject.
Import Py markers.

(** The Python objects that occur as fields of a record and as item
    data. *)
Inductive object : Type :=
| PNone
| PInt (n : Z)
| PFloat (f : float)
| PStr (s : string)
| PPoint (p : QPointF.t)
| PMarker (m : MarkerTypes).

(** Python's built-in parsers of numbers written as text. *)
Class Parsers : Type := {
  parse_float : string -> option float;
  parse_int : string -> option Z
}.

(** A parser set for records that hold no text, and one that knows two
    words. *)
Definition no_text : Parsers :=
  {| parse_float := fun _ => None; parse_int := fun _ => None |}.

Definition two_words : Parsers :=
  {| parse_float := fun s => if String.eqb s "1.5" then Some 1.5%float else None;
     parse_int := fun s => if String.eqb s "7" then Some 7%Z else None |}.

Section Builtins.
Context `{Parsers}.

(** [float(v)]. *)
Definition float_ (v : object) : result float :=
  match v with
  | PFloat f => Ok f
  | PInt n =>
      match Float.Z2SF n with
      | S754_infinity _ => Raise OverflowError
      | q => Ok (SF2Prim q)
      end
  | PStr s =>
      match parse_float s with
      | Some f => Ok f
      | None => Raise ValueError
      end
  | _ => Raise TypeError
  end.

(** [int(v)]. *)
Definition int_ (v : object) : result Z :=
  match v with
  | PInt n => Ok n
  | PFloat f =>
      if is_nan f then Raise ValueError
      else if is_infinity f then Raise OverflowError
      else
        match Float.trunc f with
        | Some n => Ok n
        | None => Raise OverflowError
        end
  | PStr s =>
      match parse_int s with
      | Some n => Ok n
      | None => Raise ValueError
      end
  | _ => Raise TypeError
  end.

End Builtins.

End PyObject.

(** ** Qt graphics items *)

Module QGraphicsItem.
Import markers PyObject.

(** What every graphics item carries: its position in the scene, its
    data, stored by key, and its stacking value. *)
Record t : Type := make {
  pos : QPointF.t;
  data_store : gmap ItemDataTypes object;
  zValue : float
}.

(** A new item sits at the origin with no data. *)
Definition new : t := make (QPointF.make 0 0) ∅ 0.

(** [setPos]: Qt returns early, and the item stays where it is, when the
    new position compares equal to the current one. *)
Definition setPos (i : t) (p : QPointF.t) : t :=
  if Qt.point_equal (pos i) p then i
  else make p (data_store i) (zValue i).
Definition setData (i : t) (key : ItemDataTypes) (v : object) : t :=
  make (pos i) (<[key := v]> (data_store i)) (zValue i).
Definition setZValue (i : t) (z : float) : t :=
  make (pos i) (data_store i) z.

(** [data(key)]: the stored object, [None] when the key was never set. *)
Definition data (i : t) (key : ItemDataTypes) : object :=
  default PNone (data_store i !! key).

End QGraphicsItem.

(** ** cgt/util/scenegraphitems.py *)

Module scenegraphitems.
Import Py Qt markers imagelinesegment PyObject QGraphicsItem.

Section Items.
Context {QPen : Type} `{Parsers}.

(** The three item classes: the common part, the shape, and the pen
    ([None] until [setPen] is called: Qt's default pen). *)
Record QGraphicsPathItem : Type := PathItem {
  path_base : QGraphicsItem.t;
  path : QPainterPath;
  path_pen : option QPen
}.

Record QGraphicsLineItem : Type := LineItem {
  line_base : QGraphicsItem.t;
  line : QLineF.t;
  line_pen : option QPen
}.

Record QGraphicsRectItem : Type := RectItem {
  rect_base : QGraphicsItem.t;
  rect : QRectF.t;
  rect_pen : option QPen
}.

(** [QGraphicsLineItem::setLine]: Qt returns early when the new line
    compares equal to the current one. *)
Definition setLine (item : QGraphicsLineItem) (l : QLineF.t)
  : QGraphicsLineItem :=
  if line_equal (line item) l then item
  else LineItem (line_base item) l (line_pen item).

(** [QGraphicsLineItem(x1, y1, x2, y2)]: a new item, which holds the null
    line, with the line set by [setLine]. *)
Definition new_line_item (x1 y1 x2 y2 : float) : QGraphicsLineItem :=
  setLine (LineItem QGraphicsItem.new (QLineF.of_coords 0 0 0 0) None)
          (QLineF.of_coords x1 y1 x2 y2).

Definition difference_to_distance (difference : ImageLineDifference)
    (scale : float) : float :=
  (average difference * scale)%float.

(** The loop of [difference_list_to_velocities], with the list built so
    far. *)
Fixpoint velocities_loop (diff_list : list (Z * ImageLineDifference))
    (scale : float) (fps : Z) (velocities : list float)
  : result (list float) :=
  match diff_list with
  | [] => Ok velocities
  | (frames, diff) :: rest =>
      let distance := difference_to_distance diff scale in
      do time <- int_truediv frames fps;
      do velocity <- float_truediv distance time;
      if (velocity <? 0)%float then
        velocities_loop rest scale fps (velocities ++ [(- velocity)%float])
      else
        velocities_loop rest scale fps (velocities ++ [velocity])
  end.

Definition difference_list_to_velocities
    (diff_list : list (Z * ImageLineDifference)) (scale : float) (fps : Z)
  : result (list float) :=
  velocities_loop diff_list scale fps [].

Definition make_positive_rect (corner opposite_corner : QPointF.t)
  : QRectF.t :=
  let width := abs (QPointF.x opposite_corner - QPointF.x corner) in
  let height := abs (QPointF.y opposite_corner - QPointF.y corner) in
  let top_left_x := Py.min (QPointF.x opposite_corner) (QPointF.x corner) in
  let top_left_y := Py.min (QPointF.y opposite_corner) (QPointF.y corner) in
  QRectF.make top_left_x top_left_y width height.

Definition make_cross_path (point : QPointF.t) : QPainterPath :=
  let up_right := QPointF.make 10 10 in
  let up_left := QPointF.make (-10) 10 in
  [ MoveTo point; LineTo (QPointF.add point up_right);
    MoveTo point; LineTo (QPointF.add point up_left);
    MoveTo point; LineTo (QPointF.sub point up_right);
    MoveTo point; LineTo (QPointF.sub point up_left) ].

(** [cgt_intersection]: the intersection of the centred normal with the
    clone, and the extension the clone needs to reach it, if any. *)
Definition cgt_intersection (centred_normal clone : QLineF.t)
  : result (QPointF.t * option QLineF.t) :=
  let a := QPointF.sub (QLineF.p2 centred_normal) (QLineF.p1 centred_normal) in
  let b := QPointF.sub (QLineF.p1 clone) (QLineF.p2 clone) in
  let c := QPointF.sub (QLineF.p1 centred_normal) (QLineF.p1 clone) in
  let denominator := (QPointF.y a * QPointF.x b - QPointF.x a * QPointF.y b)%float in
  if (denominator =? 0)%float || negb (isfinite denominator) then
    Raise (ArithmeticError "Clone line is parallel to parent")
  else
    do reciprocal <- float_truediv 1 denominator;
    let na :=
      ((QPointF.y b * QPointF.x c - QPointF.x b * QPointF.y c)
       * reciprocal)%float in
    let intersection := QPointF.add (QLineF.p1 centred_normal) (QPointF.mul a na) in
    let nb :=
      ((QPointF.x a * QPointF.y c - QPointF.y a * QPointF.x c)
       * reciprocal)%float in
    let extension :=
      if (nb <? 0)%float then Some (QLineF.make (QLineF.p1 clone) intersection)
      else if (1 <? nb)%float then Some (QLineF.make (QLineF.p2 clone) intersection)
      else None in
    Ok (intersection, extension).

(** [.x()] and [.y()] of the object a [data] call returned. *)
Definition point_x (v : object) : result float :=
  match v with PPoint p => Ok (QPointF.x p) | _ => Raise AttributeError end.
Definition point_y (v : object) : result float :=
  match v with PPoint p => Ok (QPointF.y p) | _ => Raise AttributeError end.

Definition g_point_to_tuple (point : QGraphicsPathItem)
  : result (list object) :=
  let centre := data (path_base point) CROSS_CENTRE in
  let position := pos (path_base point) in
  do cx <- point_x centre;
  do cy <- point_y centre;
  Ok [ PFloat cx; PFloat cy;
       PFloat (QPointF.x position); PFloat (QPointF.y position);
       data (path_base point) FRAME_NUMBER;
       data (path_base point) REGION_INDEX ].

Definition g_line_to_tuple (line_item : QGraphicsLineItem) : list object :=
  [ PFloat (QLineF.x1 (line line_item)); PFloat (QLineF.y1 (line line_item));
    PFloat (QLineF.x2 (line line_item)); PFloat (QLineF.y2 (line line_item));
    PFloat (QPointF.x (pos (line_base line_item)));
    PFloat (QPointF.y (pos (line_base line_item)));
    data (line_base line_item) FRAME_NUMBER;
    data (line_base line_item) REGION_INDEX ].

Definition list_to_g_point (point : list object) (pen : QPen)
  : result QGraphicsPathItem :=
  do f1 <- getitem point 1; do centre_x <- float_ f1;
  do f2 <- getitem point 2; do centre_y <- float_ f2;
  do f3 <- getitem point 3; do position_x <- float_ f3;
  do f4 <- getitem point 4; do position_y <- float_ f4;
  do f5 <- getitem point 5; do frame <- int_ f5;
  do f6 <- getitem point 6; do region <- int_ f6;
  let centre := QPointF.make centre_x centre_y in
  let position := QPointF.make position_x position_y in
  let path := make_cross_path centre in
  let item := QGraphicsItem.new in
  let item := setPos item position in
  let item := setData item ITEM_TYPE (PMarker POINT) in
  let item := setData item FRAME_NUMBER (PInt frame) in
  let item := setData item REGION_INDEX (PInt region) in
  let item := setData item CROSS_CENTRE (PPoint centre) in
  let item := setZValue item 1 in
  Ok (PathItem item path (Some pen)).

Definition list_to_g_line (line : list object) (pen : QPen)
  : result QGraphicsLineItem :=
  do f1 <- getitem line 1; do x1 <- float_ f1;
  do f2 <- getitem line 2; do y1 <- float_ f2;
  do f3 <- getitem line 3; do x2 <- float_ f3;
  do f4 <- getitem line 4; do y2 <- float_ f4;
  do f5 <- getitem line 5; do position_x <- float_ f5;
  do f6 <- getitem line 6; do position_y <- float_ f6;
  do f7 <- getitem line 7; do frame <- int_ f7;
  do f8 <- getitem line 8; do region <- int_ f8;
  let position := QPointF.make position_x position_y in
  let 'LineItem item segment _ := new_line_item x1 y1 x2 y2 in
  let item := setPos item position in
  let item := setData item ITEM_TYPE (PMarker LINE) in
  let item := setData item FRAME_NUMBER (PInt frame) in
  let item := setData item REGION_INDEX (PInt region) in
  let item := setZValue item 1 in
  Ok (LineItem item segment (Some pen)).

Definition get_rect_even_dimensions (rect_item : QGraphicsRectItem)
    (even_dimensions : bool) : option QRect.t :=
  rect ← toAlignedRect (rect rect_item);
  pos ← toPoint (pos (rect_base rect_item));
  let rect := QRect.translate rect pos in
  let width := QRect.width rect in
  let height := QRect.height rect in
  if negb even_dimensions then Some rect
  else
    let rect :=
      if (width mod 2 =? 1)%Z then QRect.setWidth rect (width + 1)
      else rect in
    let rect :=
      if (height mod 2 =? 1)%Z then QRect.setHeight rect (height + 1)
      else rect in
    Some rect.

(** A valid record of a point: an identifier, then the centre and the
    position as four floats, then the frame and the region as two
    integers. *)
Definition valid_point_fields (fields : list object) : Prop :=
  match fields with
  | [_; PFloat _; PFloat _; PFloat _; PFloat _; PInt _; PInt _] => True
  | _ => False
  end.

(** A valid record of a line: an identifier, then the two ends and the
    position as six floats, then the frame and the region. *)
Definition valid_line_fields (fields : list object) : Prop :=
  match fields with
  | [_; PFloat _; PFloat _; PFloat _; PFloat _; PFloat _; PFloat _;
     PInt _; PInt _] => True
  | _ => False
  end.

End Items.

(** Qt's measuring and stretching of lines: the routines of [QLineF] that
    compute with square roots.  They are parameters of the model. *)
Class LineGeometry : Type := {
  length : QLineF.t -> float;
  normalVector : QLineF.t -> QLineF.t;
  pointAt : QLineF.t -> float -> QPointF.t;
  setLength : QLineF.t -> float -> QLineF.t
}.

(** A polygon, as the list of its vertices. *)
Definition QPolygonF : Type := list QPointF.t.

Definition make_arrow_head `{LineGeometry} (line : QLineF.t)
    (length_cutoff : float) : result (option QPolygonF) :=
  if (length line <? length_cutoff)%float then Ok None
  else
    do delta_t <- float_truediv (length line - 10)%float (length line);
    let normal := normalVector line in
    let offset := QPointF.sub (pointAt line delta_t) (QLineF.p1 line) in
    let offset_normal :=
      QLineF.make (QPointF.add (QLineF.p1 normal) offset)
                  (QPointF.add (QLineF.p2 normal) offset) in
    let opposit_normal :=
      QLineF.make (QLineF.p1 offset_normal) (pointAt offset_normal (-1)) in
    let offset_normal := setLength offset_normal 5 in
    let opposit_normal := setLength opposit_normal 5 in
    Ok (Some [QLineF.p2 line; QLineF.p2 offset_normal;
              QLineF.p2 opposit_normal]).

(** An instance for examples: the routines by their textbook formulas,
    computed in binary64 (the length as the root of the sum of the squares,
    the normal as the quarter turn from the same start, the point at a
    parameter, and the line stretched from its start when it has a length).
    Qt documents what the routines return, not how they round: its own
    [length] and [setLength] can differ from these in the last digit. *)
Definition textbook : LineGeometry := {|
  length l :=
    sqrt ((QLineF.x2 l - QLineF.x1 l) * (QLineF.x2 l - QLineF.x1 l)
          + (QLineF.y2 l - QLineF.y1 l) * (QLineF.y2 l - QLineF.y1 l))%float;
  normalVector l :=
    QLineF.make (QLineF.p1 l)
      (QPointF.add (QLineF.p1 l)
         (QPointF.make (QLineF.y2 l - QLineF.y1 l)%float
                       (- (QLineF.x2 l - QLineF.x1 l))%float));
  pointAt l t :=
    QPointF.make (QLineF.x1 l + (QLineF.x2 l - QLineF.x1 l) * t)%float
                 (QLineF.y1 l + (QLineF.y2 l - QLineF.y1 l) * t)%float;
  setLength l len :=
    let old :=
      sqrt ((QLineF.x2 l - QLineF.x1 l) * (QLineF.x2 l - QLineF.x1 l)
            + (QLineF.y2 l - QLineF.y1 l) * (QLineF.y2 l - QLineF.y1 l))%float in
    if (0 <? old)%float then
      QLineF.make (QLineF.p1 l)
        (QPointF.make
           (QLineF.x1 l + len * ((QLineF.x2 l - QLineF.x1 l) / old))%float
           (QLineF.y1 l + len * ((QLineF.y2 l - QLineF.y1 l) / old))%float)
    else l
|}.

(** The default of [length_cutoff]. *)
Definition default_length_cutoff : float := 10.

(** Two more routines of [QLineF], parameters of the model as well: the
    middle of a line, and the line of length one from the same start. *)
Class LineCentre : Type := { center : QLineF.t -> QPointF.t }.
Class LineUnit : Type := { unitVector : QLineF.t -> QLineF.t }.

(** An instance: the middle as the mean of the two ends, computed in
    binary64. *)
Definition midpoint : LineCentre := {|
  center l :=
    QPointF.make (0.5 * QLineF.x1 l + 0.5 * QLineF.x2 l)%float
                 (0.5 * QLineF.y1 l + 0.5 * QLineF.y2 l)%float
|}.

Definition rectangle_properties (rectangle : QRect.t)
  : option (QPoint.t * QPoint.t * QPoint.t * QPoint.t * QPoint.t) :=
  let top_left := QRect.topLeft rectangle in
  let top_right := QRect.topRight rectangle in
  let bottom_left := QRect.bottomLeft rectangle in
  let bottom_right := QRect.bottomRight rectangle in
  let ctr := QPoint.add top_left bottom_right in
  ctr ← divide_point ctr 2;
  Some (top_left, top_right, bottom_left, bottom_right, ctr).

Definition qpoint_sepertation_squared (point_a point_b : QPoint.t) : Z :=
  let difference := QPoint.sub point_a point_b in
  QPoint.x difference * QPoint.x difference
  + QPoint.y difference * QPoint.y difference.

Definition length_squared (point : QPointF.t) : float :=
  (QPointF.x point * QPointF.x point + QPointF.y point * QPointF.y point)%float.

(** [make_arrow]: the arrow from the middle of the parent line to the
    clone, along the normal, and the extension the clone needs. *)
Definition make_arrow `{LineGeometry} `{LineCentre} (line clone : QLineF.t)
  : result (QLineF.t * option QLineF.t) :=
  let normal := normalVector line in
  let centre := center line in
  let offset := QPointF.sub centre (QLineF.p1 line) in
  let centred_normal :=
    QLineF.make (QPointF.add (QLineF.p1 normal) offset)
                (QPointF.add (QLineF.p2 normal) offset) in
  do found <- cgt_intersection centred_normal clone;
  let '(intersection, extension) := found in
  let arrow := QLineF.make centre intersection in
  Ok (arrow, extension).

Definition perpendicular_dist_to_position {QPen : Type}
    `{LineGeometry} `{LineUnit}
    (gline : @QGraphicsLineItem QPen) (scale : float) : result float :=
  let unit_normal := unitVector (normalVector (line gline)) in
  let del_x :=
    (QPointF.x (pos (line_base gline)) * QLineF.dx unit_normal * scale)%float in
  let del_y :=
    (QPointF.y (pos (line_base gline)) * QLineF.dy unit_normal * scale)%float in
  math_sqrt (del_x * del_x + del_y * del_y)%float.

Definition rect_to_tuple (rect : QRect.t) : list Z :=
  [QRect.left rect; QRect.top rect; QRect.width rect; QRect.height rect].

End scenegraphitems.

(** ** cgt/model/cgtproject.py *)

Module cgtproject.
Import Py PyObject.

Section Project.
(** The class of the stored results, [VideoAnalysisResultsStore], is
    not among the sources: it is a parameter of the model, with the two
    methods the project calls on it. *)
Context {Results : Type} `{Parsers}.
Variable results_has_been_changed : Results -> bool.
Variable results_reset_changed : Results -> Results.

(** The objects stored in a project. *)
Inductive value : Type :=
| VNone
| VBool (b : bool)
| VStr (s : string)
| VFloat (f : float)
| VResults (r : Results).

(** A project is a dictionary with a changed flag. *)
Record CGTProject : Type := Project {
  items : gmap string value;
  _changed : bool
}.

Definition __getitem__ (self : CGTProject) (item : string) : result value :=
  match items self !! item with
  | Some v => Ok v
  | None => Raise (KeyError item)
  end.

Definition __setitem__ (self : CGTProject) (item : string) (v : value)
  : CGTProject :=
  let self := Project (<[item := v]> (items self)) (_changed self) in
  Project (items self) true.

Definition __init__ : CGTProject :=
  let self := Project ∅ false in
  let self := __setitem__ self "prog" VNone in
  let self := __setitem__ self "description" VNone in
  let self := __setitem__ self "start_datetime" VNone in
  let self := __setitem__ self "host" VNone in
  let self := __setitem__ self "ip_address" VNone in
  let self := __setitem__ self "operating_system" VNone in
  let self := __setitem__ self "enhanced_video" VNone in
  let self := __setitem__ self "raw_video" VNone in
  let self := __setitem__ self "proj_name" VNone in
  let self := __setitem__ self "proj_full_path" VNone in
  let self := __setitem__ self "notes" VNone in
  let self := __setitem__ self "results" VNone in
  let self := __setitem__ self "enhanced_video_path" VNone in
  let self := __setitem__ self "enhanced_video_no_path" VNone in
  let self := __setitem__ self "enhanced_video_no_extension" VNone in
  let self := __setitem__ self "raw_video_path" VNone in
  let self := __setitem__ self "raw_video_no_path" VNone in
  let self := __setitem__ self "raw_video_no_extension" VNone in
  let self := __setitem__ self "stats_from_enhanced" (VBool false) in
  let self := __setitem__ self "start_user" VNone in
  let self := __setitem__ self "frame_rate" VNone in
  let self := __setitem__ self "resolution" VNone in
  let self := __setitem__ self "resolution_units" VNone in
  let self := __setitem__ self "latest_report" VNone in
  self.

(** The values [init_new_project] reads from the machine it runs on. *)
Record Environment : Type := {
  timestamp : string;
  hostname : string;
  ip : string;
  system : string;
  user : string
}.

Definition init_new_project (env : Environment) (self : CGTProject)
  : CGTProject :=
  let prog := "CGT" in
  let description :=
    "Semi-automatically tracks the growth of crystals from X-ray videos." in
  let self := __setitem__ self "prog" (VStr prog) in
  let self := __setitem__ self "description" (VStr description) in
  let self := __setitem__ self "start_datetime" (VStr (timestamp env)) in
  let self := __setitem__ self "host" (VStr (hostname env)) in
  let self := __setitem__ self "ip_address" (VStr (ip env)) in
  let self := __setitem__ self "operating_system" (VStr (system env)) in
  let self := __setitem__ self "start_user" (VStr (user env)) in
  self.

(** [float(v)] on a stored object. *)
Definition value_float (v : value) : result float :=
  match v with
  | VFloat f => Ok f
  | VBool b => Ok (if b then 1 else 0)%float
  | VStr s =>
      match parse_float s with
      | Some f => Ok f
      | None => Raise ValueError
      end
  | _ => Raise TypeError
  end.

(** [ensure_numeric] stores the resolution, then the frame rate, as
    floats; the project it leaves is returned also when a conversion
    raises. *)
Definition ensure_numeric (self : CGTProject) : CGTProject * result unit :=
  match (do v <- __getitem__ self "resolution"; value_float v) with
  | Raise e => (self, Raise e)
  | Ok resolution =>
      let self := __setitem__ self "resolution" (VFloat resolution) in
      match (do v <- __getitem__ self "frame_rate"; value_float v) with
      | Raise e => (self, Raise e)
      | Ok frame_rate =>
          (__setitem__ self "frame_rate" (VFloat frame_rate), Ok tt)
      end
  end.

Definition set_changed (self : CGTProject) : CGTProject :=
  Project (items self) true.

(** [reset_changed] clears the flag and then resets the stored results
    object in place; the project it leaves is returned also when the call
    raises. *)
Definition reset_changed (self : CGTProject) : CGTProject * result unit :=
  let self := Project (items self) false in
  match __getitem__ self "results" with
  | Raise e => (self, Raise e)
  | Ok VNone => (self, Ok tt)
  | Ok (VResults r) =>
      (Project (<["results" := VResults (results_reset_changed r)]> (items self))
               (_changed self),
       Ok tt)
  | Ok _ => (self, Raise AttributeError)
  end.

Definition has_been_changed (self : CGTProject) : result bool :=
  do results <- __getitem__ self "results";
  match results with
  | VNone => Ok (_changed self)
  | VResults r => Ok (_changed self || results_has_been_changed r)
  | _ => if _changed self then Ok true else Raise AttributeError
  end.

(** What the rest of the program does with a project: it calls the
    methods above, and whoever holds the stored results object changes it
    in place. *)
Inductive call : Type :=
| SetItem (item : string) (v : value)
| InitNewProject (env : Environment)
| EnsureNumeric
| SetChanged
| ResetChanged
| ChangeResults (f : Results -> Results).

Definition step (self : CGTProject) (c : call) : CGTProject :=
  match c with
  | SetItem item v => __setitem__ self item v
  | InitNewProject env => init_new_project env self
  | EnsureNumeric => fst (ensure_numeric self)
  | SetChanged => set_changed self
  | ResetChanged => fst (reset_changed self)
  | ChangeResults f =>
      match items self !! "results" with
      | Some (VResults r) =>
          Project (<["results" := VResults (f r)]> (items self)) (_changed self)
      | _ => self
      end
  end.

Definition run (calls : list call) : CGTProject :=
  fold_left step calls __init__.

(** The calls that can leave the project's own flag as it is: a change
    of the results object, and an [ensure_numeric] that raises at once. *)
Definition leaves_flag (c : call) : bool :=
  match c with
  | ChangeResults _ | EnsureNumeric => true
  | _ => false
  end.

(** Every project holds the key ["results"]: [__init__] stores it and no
    call removes a key. *)
Definition holds_results (self : CGTProject) : Prop :=
  is_Some (items self !! "results").

(** The keys [__init__] stores. *)
Definition default_keys : list string :=
  [ "prog"; "description"; "start_datetime"; "host"; "ip_address";
    "operating_system"; "enhanced_video"; "raw_video"; "proj_name";
    "proj_full_path"; "notes"; "results"; "enhanced_video_path";
    "enhanced_video_no_path"; "enhanced_video_no_extension";
    "raw_video_path"; "raw_video_no_path"; "raw_video_no_extension";
    "stats_from_enhanced"; "start_user"; "frame_rate"; "resolution";
    "resolution_units"; "latest_report" ].

(** The keys a call may store a value under. *)
Definition writes (c : call) (key : string) : bool :=
  match c with
  | SetItem item _ => bool_decide (key = item)
  | InitNewProject _ =>
      bool_decide (key ∈ ["prog"; "description"; "start_datetime"; "host";
                          "ip_address"; "operating_system"; "start_user"])
  | EnsureNumeric => bool_decide (key ∈ ["resolution"; "frame_rate"])
  | SetChanged => false
  | ResetChanged | ChangeResults _ => bool_decide (key = "results")
  end.

End Project.

End cgtproject.

(** ** cgt/gui/regionslinesframeswidget.py *)

Module regionslinesframeswidget.
Import Py.

Section Widget.
(** The data source ([VideoAnalysisResultsStore]) and the result it hands
    out are not among the sources: they are parameters of the model, with
    the members the widget reads. *)
Context {DataSource Result Line : Type}.
Variable get_result : DataSource -> option Result.
Variable number_of_regions : Result -> Z.
Variable get_lines : Result -> Z -> list Line.

(** The widget: its data source and the texts of its three lists. *)
Record RegionsLinesFramesWidget : Type := Widget {
  _data_source : option DataSource;
  _regionsList : list string;
  _linesList : list string;
  _framesList : list string
}.

(** [QListWidget.addItem] on the list of regions: the item goes to the
    end. *)
Definition regionsList_addItem (self : RegionsLinesFramesWidget)
    (item : string) : RegionsLinesFramesWidget :=
  Widget (_data_source self) (_regionsList self ++ [item])
         (_linesList self) (_framesList self).

(** The loop of [display_data], over the indices still to come. *)
Fixpoint display_loop (result : Result) (indices : list Z)
    (self : RegionsLinesFramesWidget) : RegionsLinesFramesWidget :=
  match indices with
  | [] => self
  | i :: rest =>
      let item := "region " +:+ format_int i in
      let l_count := Z.of_nat (length (get_lines result i)) in
      let item :=
        if (0 <? l_count)%Z
        then item +:+ (" " +:+ format_int l_count +:+ " lines")
        else item +:+ " no lines" in
      display_loop result rest (regionsList_addItem self item)
  end.

(** [display_data]; the widget it leaves is returned also when the call
    raises. *)
Definition display_data (self : RegionsLinesFramesWidget)
  : RegionsLinesFramesWidget * result unit :=
  match _data_source self with
  | None => (self, Raise AttributeError)
  | Some source =>
      match get_result source with
      | None => (self, Ok tt)
      | Some result =>
          (display_loop result (range (number_of_regions result)) self, Ok tt)
      end
  end.

(** [__init__], from the widget as [setupUi] built it. *)
Definition __init__ (built : RegionsLinesFramesWidget)
    (data_source : option DataSource)
  : RegionsLinesFramesWidget * result unit :=
  let self := Widget data_source (_regionsList built) (_linesList built)
                     (_framesList built) in
  match data_source with
  | Some _ => display_data self
  | None => (self, Ok tt)
  end.

Definition set_data_source (self : RegionsLinesFramesWidget)
    (data_source : option DataSource)
  : RegionsLinesFramesWidget * result unit :=
  let self := Widget data_source (_regionsList self) (_linesList self)
                     (_framesList self) in
  display_data self.

Definition clear (self : RegionsLinesFramesWidget)
  : RegionsLinesFramesWidget :=
  Widget (_data_source self) [] [] [].

(** The text shown for region [i]. *)
Definition region_text (result : Result) (i : Z) : string :=
  match get_lines result i with
  | [] => "region " +:+ format_int i +:+ " no lines"
  | lines =>
      "region " +:+ format_int i +:+ " "
      +:+ format_int (Z.of_nat (length lines)) +:+ " lines"
  end.

End Widget.

End regionslinesframeswidget.

(** ** The quantities of the intersection algorithm

    The denominator and the two parametric positions, written as the
    specification of [cgt_intersection] names them; the theorems compare
    the code with them. *)

Module Intersection.

Section Pair.
Variables N C : QLineF.t.

Definition a : QPointF.t := QPointF.sub (QLineF.p2 N) (QLineF.p1 N).
Definition b : QPointF.t := QPointF.sub (QLineF.p1 C) (QLineF.p2 C).
Definition c : QPointF.t := QPointF.sub (QLineF.p1 N) (QLineF.p1 C).

Definition denominator : float :=
  (QPointF.y a * QPointF.x b - QPointF.x a * QPointF.y b)%float.
Definition reciprocal : float := (1 / denominator)%float.
Definition na : float :=
  ((QPointF.y b * QPointF.x c - QPointF.x b * QPointF.y c) * reciprocal)%float.
Definition nb : float :=
  ((QPointF.x a * QPointF.y c - QPointF.y a * QPointF.x c) * reciprocal)%float.
Definition point : QPointF.t := QPointF.add (QLineF.p1 N) (QPointF.mul a na).

(** The two lines are parallel or degenerate. *)
Definition parallel : bool :=
  (denominator =? 0)%float || negb (Py.isfinite denominator).
End Pair.

(** The error the specification calls [ParallelLinesError]. *)
Definition ParallelLinesError : Py.exn :=
  Py.ArithmeticError "Clone line is parallel to parent".

End Intersection.

(** ** What normalising a rectangle promises

    The rectangle of two corners does not depend on their order, its
    width and height are the absolute differences of the coordinates and
    are not negative, and its top left corner holds the smaller [x] and the
    smaller [y]. *)

Module Normalised.
Import scenegraphitems.

Definition normalises (c1 c2 : QPointF.t) : Prop :=
  let r := make_positive_rect c1 c2 in
  QRectF.eqb r (make_positive_rect c2 c1) = true
  /\ QRectF.w r = abs (QPointF.x c2 - QPointF.x c1)
  /\ (0 <=? QRectF.w r)%float = true
  /\ QRectF.h r = abs (QPointF.y c2 - QPointF.y c1)
  /\ (0 <=? QRectF.h r)%float = true
  /\ Py.smaller_of (QRectF.xp r) (QPointF.x c1) (QPointF.x c2)
  /\ Py.smaller_of (QRectF.yp r) (QPointF.y c1) (QPointF.y c2).

(** Both coordinates of a point are finite. *)
Definition finite_point (p : QPointF.t) : Prop :=
  is_finite (QPointF.x p) = true /\ is_finite (QPointF.y p) = true.

End Normalised.

(** ** What an integer rectangle covers

    The pixels of an integer rectangle span from its left edge to its left
    edge plus its width, and likewise downwards.  It covers a float
    rectangle moved by an offset when the four moved edges lie in that
    span. *)

Module Pixels.

Definition covers (r : QRect.t) (f : QRectF.t) (dx dy : Q) : Prop :=
  exists left top right bottom : Q,
    Float.value (QRectF.left f) = Some left
    /\ Float.value (QRectF.top f) = Some top
    /\ Float.value (QRectF.right f) = Some right
    /\ Float.value (QRectF.bottom f) = Some bottom
    /\ (inject_Z (QRect.left r) <= left + dx)%Q
    /\ (right + dx <= inject_Z (QRect.left r + QRect.width r))%Q
    /\ (inject_Z (QRect.top r) <= top + dy)%Q
    /\ (bottom + dy <= inject_Z (QRect.top r + QRect.height r))%Q.

(** A bound under which every integer that Qt computes for a rectangle
    and a position fits its [int], sums and differences of four of them
    included: 2^29. *)
Definition bound : Z := 536870912.

(** A float that holds a number of magnitude at most [bound]. *)
Definition within (x : float) : Prop :=
  exists q : Q,
    Float.value x = Some q /\ (inject_Z (- bound) <= q <= inject_Z bound)%Q.

(** The four edges of a float rectangle are within the bound. *)
Definition edges_within (f : QRectF.t) : Prop :=
  within (QRectF.left f) /\ within (QRectF.top f)
  /\ within (QRectF.right f) /\ within (QRectF.bottom f).

(** An integer point within the bound. *)
Definition point_within (p : QPoint.t) : Prop :=
  Z.abs (QPoint.x p) <= bound /\ Z.abs (QPoint.y p) <= bound.

(** The integers that Qt computes when it builds an integer rectangle
    from its left top corner and its sides, reads its sides and widens them
    by one pixel are values of Qt's [int]. *)
Definition fits (r : QRect.t) : Prop :=
  Forall Qt.int_range
    [QRect.x1 r; QRect.y1 r; QRect.x2 r; QRect.y2 r;
     QRect.x2 r - QRect.x1 r; QRect.y2 r - QRect.y1 r;
     QRect.width r; QRect.height r;
     QRect.x1 r + QRect.width r; QRect.y1 r + QRect.height r;
     QRect.width r + 1; QRect.height r + 1;
     QRect.x1 r + (QRect.width r + 1); QRect.y1 r + (QRect.height r + 1)].

End Pixels.

(** ** What a new item keeps of a position and of a line

    A new item sits at the origin, and a new line item holds the null
    line.  A position whose two coordinates are at most 0.000000000001 in
    magnitude compares equal to the origin: the item stays at the origin,
    (0.0, 0.0).  Likewise a line whose four coordinates are that small leaves
    the null line in place. *)

Module Settling.
Import PyObject.

(** Both coordinates of a point are at most 0.000000000001 in
    magnitude. *)
Definition tiny (p : QPointF.t) : bool :=
  Qt.qFuzzyIsNull (QPointF.x p) && Qt.qFuzzyIsNull (QPointF.y p).

(** Where a new item is once it is sent to [p]. *)
Definition position (p : QPointF.t) : QPointF.t :=
  if tiny p then QPointF.make 0 0 else p.

(** The line a new line item holds once it is given [l]. *)
Definition segment (l : QLineF.t) : QLineF.t :=
  if tiny (QLineF.p1 l) && tiny (QLineF.p2 l) then QLineF.of_coords 0 0 0 0
  else l.

(** A position that a new item takes as it is: the origin itself, with
    both zeros positive, or a point with a coordinate that is not tiny. *)
Definition kept (p : QPointF.t) : Prop :=
  p = QPointF.make 0 0 \/ tiny p = false.

(** A line that a new line item takes as it is. *)
Definition kept_line (l : QLineF.t) : Prop :=
  l = QLineF.of_coords 0 0 0 0
  \/ tiny (QLineF.p1 l) && tiny (QLineF.p2 l) = false.

(** The position of a record of a point is kept. *)
Definition point_kept (fields : list object) : Prop :=
  match fields with
  | [_; _; _; PFloat px; PFloat py; _; _] => kept (QPointF.make px py)
  | _ => False
  end.

(** The line and the position of a record of a line are kept. *)
Definition line_kept (fields : list object) : Prop :=
  match fields with
  | [_; PFloat x1; PFloat y1; PFloat x2; PFloat y2; PFloat px; PFloat py;
     _; _] =>
      kept_line (QLineF.of_coords x1 y1 x2 y2) /\ kept (QPointF.make px py)
  | _ => False
  end.

End Settling.

(** ** What a reported velocity is

    The raw velocity of an entry is its distance over its elapsed time; the
    velocity reported for it is the magnitude of the raw one. *)

Module Velocity.
Import Py imagelinesegment scenegraphitems.

Section Entry.
Variables (scale : float) (fps : Z).

(** What the specification promises of a reported velocity [v]: it
    equals the absolute value of the raw velocity and is at least zero. *)
Definition magnitude (entry : Z * ImageLineDifference) (v : float) : Prop :=
  exists time,
    int_truediv (fst entry) fps = Ok time
    /\ let velocity := (difference_to_distance (snd entry) scale / time)%float in
       (v =? abs velocity)%float = true /\ (0 <=? v)%float = true.

(** What the code gives for every raw velocity, a NaN included: [v] has
    the magnitude of the raw velocity and is not negative; and when the raw
    velocity is a number, [v] equals its absolute value and is at least
    zero. *)
Definition reported (entry : Z * ImageLineDifference) (v : float) : Prop :=
  exists time,
    int_truediv (fst entry) fps = Ok time
    /\ (time =? 0)%float = false
    /\ let velocity := (difference_to_distance (snd entry) scale / time)%float in
       abs v = abs velocity
       /\ (v <? 0)%float = false
       /\ (is_nan velocity = false ->
           (v =? abs velocity)%float = true /\ (0 <=? v)%float = true).

(** The elapsed time of an entry is a float other than zero. *)
Definition timed (entry : Z * ImageLineDifference) : Prop :=
  exists time,
    int_truediv (fst entry) fps = Ok time /\ (time =? 0)%float = false.

(** A count that is not zero and that a float holds exactly: below 2^53
    in magnitude. *)
Definition counted (n : Z) : Prop := n <> 0%Z /\ Z.abs n < Float.two53.

(** The quotient of an entry's frame interval by the frame rate fits a
    float. *)
Definition fits (entry : Z * ImageLineDifference) : Prop :=
  int_truediv (fst entry) fps <> Raise OverflowError.

End Entry.

End Velocity.

Import Py Qt markers imagelinesegment PyObject QGraphicsItem scenegraphitems cgtproject.

(** * Facts about binary64 comparisons *)

Section FloatOrder.

(** Comparing the other way round gives the opposite answer. *)
Lemma SFcompare_antisym (f g : spec_float) :
  SFcompare g f = option_map CompOpp (SFcompare f g).
Proof.
  destruct f as [s|s| |s m e], g as [s'|s'| |s' m' e']; simpl;
    try reflexivity; try (destruct s; reflexivity);
    try (destruct s'; reflexivity); try (destruct s, s'; reflexivity).
  pose proof (Pos.compare_cont_antisym m m' Eq) as Hm. simpl in Hm.
  destruct s, s'; simpl; try reflexivity;
    rewrite (Z.compare_antisym e e'); destruct (e ?= e')%Z; simpl;
    try reflexivity; rewrite <- Hm; try reflexivity.
Qed.

Lemma float_ltb_antisym (u v : float) :
  (u <? v)%float = true -> (v <? u)%float = false.
Proof.
  rewrite !FloatAxioms.ltb_spec. unfold SFltb.
  rewrite (SFcompare_antisym (Prim2SF u) (Prim2SF v)).
  destruct (SFcompare (Prim2SF u) (Prim2SF v)) as [[| |]|]; simpl; congruence.
Qed.

Lemma float_leb_not_ltb (u v : float) :
  (u <=? v)%float = true -> (v <? u)%float = false.
Proof.
  rewrite FloatAxioms.leb_spec, FloatAxioms.ltb_spec. unfold SFleb, SFltb.
  rewrite (SFcompare_antisym (Prim2SF u) (Prim2SF v)).
  destruct (SFcompare (Prim2SF u) (Prim2SF v)) as [[| |]|]; simpl; congruence.
Qed.

(** A float above one is not below zero. *)
Lemma above_one_not_negative (u : float) :
  (1 <? u)%float = true -> (u <? 0)%float = false.
Proof.
  rewrite !FloatAxioms.ltb_spec. unfold SFltb.
  change (Prim2SF 1) with (S754_finite false 4503599627370496 (-52)).
  change (Prim2SF 0) with (S754_zero false).
  destruct (Prim2SF u) as [s|s| |s m e]; simpl; try congruence;
    destruct s; simpl; congruence.
Qed.

(** A number equals itself; [is_nan] and [is_finite] read off the
    specification value. *)
Lemma SFcompare_refl (f : spec_float) :
  f <> S754_nan -> SFcompare f f = Some Eq.
Proof.
  destruct f as [s|s| |s m e]; simpl; try congruence; intros _.
  - destruct s; reflexivity.
  - destruct s; rewrite Z.compare_refl, Pos.compare_cont_refl; reflexivity.
Qed.

Lemma float_is_nan_spec (u : float) :
  is_nan u = match Prim2SF u with S754_nan => true | _ => false end.
Proof.
  unfold is_nan. rewrite FloatAxioms.eqb_spec. unfold SFeqb.
  destruct (Prim2SF u) as [s|s| |s m e] eqn:Hu; try reflexivity;
    rewrite SFcompare_refl by discriminate; reflexivity.
Qed.

Lemma float_is_finite_spec (u : float) :
  is_finite u = match Prim2SF u with
                | S754_zero _ | S754_finite _ _ _ => true
                | _ => false
                end.
Proof.
  unfold is_finite, is_infinity.
  rewrite float_is_nan_spec, FloatAxioms.eqb_spec, FloatAxioms.abs_spec.
  change (Prim2SF infinity) with (S754_infinity false).
  destruct (Prim2SF u) as [s|s| |s m e]; reflexivity.
Qed.

(** Two numbers always compare. *)
Lemma SFcompare_numbers (f g : spec_float) :
  f <> S754_nan -> g <> S754_nan -> exists c, SFcompare f g = Some c.
Proof.
  destruct f as [s|s| |s m e], g as [s'|s'| |s' m' e']; simpl;
    try congruence; eauto.
Qed.

(** How two floats compare, NaN apart. *)
Lemma float_compare_numbers (u v : float) :
  is_nan u = false -> is_nan v = false ->
  exists c, SFcompare (Prim2SF u) (Prim2SF v) = Some c
            /\ SFcompare (Prim2SF v) (Prim2SF u) = Some (CompOpp c).
Proof.
  rewrite !float_is_nan_spec. intros Hu Hv.
  destruct (SFcompare_numbers (Prim2SF u) (Prim2SF v)) as [c Hc].
  - intros E. now rewrite E in Hu.
  - intros E. now rewrite E in Hv.
  - exists c. split; [exact Hc |].
    now rewrite (SFcompare_antisym (Prim2SF u) (Prim2SF v)), Hc.
Qed.

Lemma float_leb_refl (u : float) : is_nan u = false -> (u <=? u)%float = true.
Proof.
  rewrite float_is_nan_spec, FloatAxioms.leb_spec. unfold SFleb. intros Hu.
  rewrite SFcompare_refl; [reflexivity |]. intros E. now rewrite E in Hu.
Qed.

Lemma float_eqb_refl (u : float) : is_nan u = false -> (u =? u)%float = true.
Proof.
  rewrite float_is_nan_spec, FloatAxioms.eqb_spec. unfold SFeqb. intros Hu.
  rewrite SFcompare_refl; [reflexivity |]. intros E. now rewrite E in Hu.
Qed.

Lemma float_ltb_leb (u v : float) :
  (u <? v)%float = true -> (u <=? v)%float = true.
Proof.
  rewrite FloatAxioms.ltb_spec, FloatAxioms.leb_spec. unfold SFltb, SFleb.
  destruct (SFcompare (Prim2SF u) (Prim2SF v)) as [[| |]|]; congruence.
Qed.

Lemma float_not_ltb_leb (u v : float) :
  is_nan u = false -> is_nan v = false ->
  (v <? u)%float = false -> (u <=? v)%float = true.
Proof.
  intros Hu Hv. rewrite FloatAxioms.ltb_spec, FloatAxioms.leb_spec.
  unfold SFltb, SFleb.
  destruct (float_compare_numbers u v Hu Hv) as (c & -> & ->).
  destruct c; simpl; congruence.
Qed.

Lemma float_not_ltb_eqb (u v : float) :
  is_nan u = false -> is_nan v = false ->
  (u <? v)%float = false -> (v <? u)%float = false -> (u =? v)%float = true.
Proof.
  intros Hu Hv. rewrite !FloatAxioms.ltb_spec, FloatAxioms.eqb_spec.
  unfold SFltb, SFeqb.
  destruct (float_compare_numbers u v Hu Hv) as (c & -> & ->).
  destruct c; simpl; congruence.
Qed.

(** A difference that is a number has terms that are numbers. *)
Lemma float_sub_nan (u v : float) :
  is_nan (u - v) = false -> is_nan u = false /\ is_nan v = false.
Proof.
  rewrite !float_is_nan_spec, FloatAxioms.sub_spec. unfold SF64sub.
  destruct (Prim2SF u) as [s|s| |s m e], (Prim2SF v) as [s'|s'| |s' m' e'];
    simpl; try discriminate; auto.
Qed.

Lemma float_abs_opp (u : float) : abs (- u) = abs u.
Proof.
  apply Prim2SF_inj. rewrite !FloatAxioms.abs_spec, FloatAxioms.opp_spec.
  destruct (Prim2SF u); reflexivity.
Qed.

(** Dropping the sign of a negative float, as the velocity loop does. *)
Lemma sign_dropped (u : float) :
  let v := if (u <? 0)%float then (- u)%float else u in
  abs v = abs u
  /\ (v <? 0)%float = false
  /\ (is_nan u = false -> (v =? abs u)%float = true /\ (0 <=? v)%float = true).
Proof.
  cbv zeta. destruct (u <? 0)%float eqn:Hneg.
  - split; [apply float_abs_opp |].
    rewrite FloatAxioms.ltb_spec in Hneg.
    rewrite FloatAxioms.ltb_spec, FloatAxioms.eqb_spec, FloatAxioms.leb_spec,
      FloatAxioms.abs_spec, FloatAxioms.opp_spec, float_is_nan_spec.
    change (Prim2SF 0) with (S754_zero false) in *.
    destruct (Prim2SF u) as [s|s| |s m e]; try discriminate;
      destruct s; try discriminate; repeat split.
    unfold SFeqb. now rewrite SFcompare_refl.
  - split; [reflexivity |]. split; [exact Hneg |].
    rewrite FloatAxioms.ltb_spec in Hneg.
    rewrite FloatAxioms.eqb_spec, FloatAxioms.leb_spec,
      FloatAxioms.abs_spec, float_is_nan_spec.
    change (Prim2SF 0) with (S754_zero false) in *.
    destruct (Prim2SF u) as [s|s| |s m e]; try discriminate;
      destruct s; try discriminate; intros _; split; try reflexivity.
    unfold SFeqb. now rewrite SFcompare_refl.
Qed.

End FloatOrder.

(** * Facts about binary64 rounding *)

(** Rounding a non-negative mantissa never yields a NaN, and the sign
    given to the rounding only sets the sign of the result: so the absolute
    value of a difference does not depend on the order of its terms. *)

Section Rounding.
Variables prec emax : Z.

Lemma shr_1_nonneg mrs : 0 <= shr_m mrs -> 0 <= shr_m (shr_1 mrs).
Proof.
  destruct mrs as [m r s]. simpl.
  destruct m as [|p|p]; simpl; try lia; destruct p; simpl; lia.
Qed.

Lemma iter_shr_1_nonneg p mrs :
  0 <= shr_m mrs -> 0 <= shr_m (SpecFloat.iter_pos shr_1 p mrs).
Proof.
  revert mrs. induction p as [p IH|p IH|]; intros mrs Hm; simpl.
  - apply IH, IH, shr_1_nonneg, Hm.
  - apply IH, IH, Hm.
  - apply shr_1_nonneg, Hm.
Qed.

Lemma shr_fexp_nonneg m e l :
  0 <= m -> 0 <= shr_m (fst (shr_fexp prec emax m e l)).
Proof.
  intros Hm. unfold shr_fexp, shr.
  assert (0 <= shr_m (shr_record_of_loc m l)) as H0.
  { destruct l as [|[]]; exact Hm. }
  destruct (fexp prec emax (Zdigits2 m + e) - e); simpl; try exact H0.
  now apply iter_shr_1_nonneg.
Qed.

Lemma round_nearest_even_nonneg m l : 0 <= m -> 0 <= round_nearest_even m l.
Proof.
  intros Hm. destruct l as [|[]]; simpl; try lia.
  destruct (Z.even m); lia.
Qed.

Lemma binary_round_aux_not_nan s m e l :
  0 <= m -> binary_round_aux prec emax s m e l <> S754_nan.
Proof.
  intros Hm. unfold binary_round_aux.
  pose proof (shr_fexp_nonneg m e l Hm) as H1.
  destruct (shr_fexp prec emax m e l) as [mrs' e']. simpl in H1.
  pose proof (shr_fexp_nonneg _ e' loc_Exact
                (round_nearest_even_nonneg _ (loc_of_shr_record mrs') H1)) as H2.
  destruct (shr_fexp prec emax _ e' loc_Exact) as [mrs'' e'']. simpl in H2.
  destruct (shr_m mrs''); try discriminate; try lia.
  destruct (e'' <=? emax - prec); discriminate.
Qed.

Lemma SFabs_binary_round_aux s m e l :
  SFabs (binary_round_aux prec emax s m e l)
  = binary_round_aux prec emax false m e l.
Proof.
  unfold binary_round_aux.
  destruct (shr_fexp prec emax m e l) as [mrs' e'].
  destruct (shr_fexp prec emax _ e' loc_Exact) as [mrs'' e''].
  destruct (shr_m mrs''); try reflexivity.
  destruct (e'' <=? emax - prec); reflexivity.
Qed.

Lemma SFabs_binary_normalize_opp n e :
  SFabs (binary_normalize prec emax (- n) e false)
  = SFabs (binary_normalize prec emax n e false).
Proof.
  destruct n as [|p|p]; simpl; try reflexivity; unfold binary_round;
    destruct (shl_align p e _) as [mz ez];
    rewrite !SFabs_binary_round_aux; reflexivity.
Qed.

Lemma binary_normalize_not_nan n e :
  binary_normalize prec emax n e false <> S754_nan.
Proof.
  destruct n as [|p|p]; simpl; try discriminate; unfold binary_round;
    destruct (shl_align p e _) as [mz ez];
    apply binary_round_aux_not_nan; lia.
Qed.

Lemma SFabs_SFsub_swap f g :
  SFabs (SFsub prec emax f g) = SFabs (SFsub prec emax g f).
Proof.
  destruct f as [s|s| |s m e], g as [s'|s'| |s' m' e']; simpl;
    try reflexivity; try (destruct s, s'; reflexivity).
  rewrite (Z.min_comm e' e).
  rewrite <- SFabs_binary_normalize_opp. f_equal. f_equal. lia.
Qed.
End Rounding.

(** * Facts about binary64 signs *)

Section FloatSigns.

Lemma float_abs_sub_swap (u v : float) : abs (u - v) = abs (v - u).
Proof.
  apply Prim2SF_inj. rewrite !FloatAxioms.abs_spec, !FloatAxioms.sub_spec.
  apply SFabs_SFsub_swap.
Qed.

Lemma float_sub_not_nan (u v : float) :
  is_finite u = true -> is_finite v = true -> is_nan (u - v) = false.
Proof.
  rewrite !float_is_finite_spec, float_is_nan_spec, FloatAxioms.sub_spec. unfold SF64sub.
  destruct (Prim2SF u) as [s|s| |s m e], (Prim2SF v) as [s'|s'| |s' m' e'];
    try discriminate; intros _ _; simpl; try reflexivity;
    try (destruct s, s'; reflexivity).
  destruct (binary_normalize _ _ _ _ _) eqn:Hb; try reflexivity.
  now apply binary_normalize_not_nan in Hb.
Qed.

Lemma float_abs_nonneg (w : float) :
  is_nan w = false -> (0 <=? abs w)%float = true.
Proof.
  rewrite float_is_nan_spec, FloatAxioms.leb_spec, FloatAxioms.abs_spec.
  change (Prim2SF 0) with (S754_zero false).
  destruct (Prim2SF w) as [s|s| |s m e]; try discriminate; reflexivity.
Qed.

End FloatSigns.

(** * Dividing integers that floats hold exactly *)

Section ExactInts.

Lemma digits2_pos_bounds (p : positive) :
  2 ^ (Zpos (digits2_pos p) - 1) <= Zpos p < 2 ^ Zpos (digits2_pos p).
Proof.
  induction p as [p IH | p IH |]; simpl digits2_pos.
  - rewrite Pos2Z.inj_succ.
    replace (Z.succ (Zpos (digits2_pos p)) - 1) with (Zpos (digits2_pos p)) by lia.
    rewrite Z.pow_succ_r by lia.
    replace (2 ^ Zpos (digits2_pos p)) with (2 * 2 ^ (Zpos (digits2_pos p) - 1)) in *
      by (rewrite <- Z.pow_succ_r by lia; f_equal; lia).
    lia.
  - rewrite Pos2Z.inj_succ.
    replace (Z.succ (Zpos (digits2_pos p)) - 1) with (Zpos (digits2_pos p)) by lia.
    rewrite Z.pow_succ_r by lia.
    replace (2 ^ Zpos (digits2_pos p)) with (2 * 2 ^ (Zpos (digits2_pos p) - 1)) in *
      by (rewrite <- Z.pow_succ_r by lia; f_equal; lia).
    lia.
  - simpl. lia.
Qed.

Lemma digits2_pos_unique (p : positive) (k : Z) :
  2 ^ (k - 1) <= Zpos p < 2 ^ k -> Zpos (digits2_pos p) = k.
Proof.
  intros [Hlo Hhi]. pose proof (digits2_pos_bounds p) as [Dlo Dhi].
  assert (0 < k) as Hk.
  { destruct (Z_lt_le_dec 0 k) as [|Hk]; [assumption |].
    destruct (Z.eq_dec k 0) as [-> | Hne].
    - simpl in Hhi. lia.
    - rewrite (Z.pow_neg_r 2 k) in Hhi by lia. lia. }
  assert (2 ^ (Zpos (digits2_pos p) - 1) < 2 ^ k) as H1 by lia.
  assert (2 ^ (k - 1) < 2 ^ Zpos (digits2_pos p)) as H2 by lia.
  apply Z.pow_lt_mono_r_iff in H1; [| lia | lia].
  apply Z.pow_lt_mono_r_iff in H2; [| lia | lia].
  lia.
Qed.

Lemma round_nearest_even_bounds (m : Z) (l : location) :
  m <= round_nearest_even m l <= m + 1.
Proof.
  destruct l as [| []]; simpl; try lia. destruct (Z.even m); lia.
Qed.

Lemma shr_1_halves (mrs : shr_record) :
  0 <= shr_m mrs -> shr_m (shr_1 mrs) = shr_m mrs / 2.
Proof.
  destruct mrs as [m r s]. simpl. intros Hm.
  destruct m as [| p | p]; [reflexivity | | lia].
  destruct p as [p | p |]; simpl.
  - rewrite Pos2Z.inj_xI. apply (Z.div_unique _ 2 _ 1); lia.
  - rewrite Pos2Z.inj_xO. apply (Z.div_unique _ 2 _ 0); lia.
  - reflexivity.
Qed.

Lemma shr_m_of_loc (m : Z) (l : location) : shr_m (shr_record_of_loc m l) = m.
Proof. destruct l as [| []]; reflexivity. Qed.

(** Shifting a mantissa of 53 or 54 bits to 53 bits. *)
Lemma shr_fexp_normal (m e : Z) (l : location) :
  Float.two52 <= m < Float.two54 -> -1074 <= e ->
  exists mrs,
    shr_fexp prec emax m e l = (mrs, (if m <? Float.two53 then e else e + 1))
    /\ Float.two52 <= shr_m mrs < Float.two53
    /\ (m < Float.two53 -> mrs = shr_record_of_loc m l).
Proof.
  intros Hm He. unfold shr_fexp.
  destruct m as [| p | p]; try (unfold Float.two52 in Hm; lia).
  destruct (Z.ltb_spec (Zpos p) Float.two53) as [Hlt | Hge].
  - assert (Zpos (digits2_pos p) = 53) as Hd.
    { apply digits2_pos_unique. change (2 ^ (53 - 1)) with Float.two52.
      change (2 ^ 53) with Float.two53. lia. }
    simpl Zdigits2. rewrite Hd.
    replace (fexp prec emax (53 + e) - e) with 0
      by (unfold fexp, SpecFloat.emin, prec, emax; lia).
    simpl. eexists. split; [reflexivity |]. rewrite shr_m_of_loc.
    split; [lia | reflexivity].
  - assert (Zpos (digits2_pos p) = 54) as Hd.
    { apply digits2_pos_unique. change (2 ^ (54 - 1)) with Float.two53.
      change (2 ^ 54) with Float.two54. lia. }
    simpl Zdigits2. rewrite Hd.
    replace (fexp prec emax (54 + e) - e) with 1
      by (unfold fexp, SpecFloat.emin, prec, emax; lia).
    simpl. eexists. split; [reflexivity |]. split; [| lia].
    rewrite shr_1_halves by (rewrite shr_m_of_loc; lia).
    rewrite shr_m_of_loc. unfold Float.two52, Float.two53, Float.two54 in *.
    split.
    + apply Z.div_le_lower_bound; lia.
    + apply Z.div_lt_upper_bound; lia.
Qed.

(** Rounding a mantissa of 53 or 54 bits, far from both ends of the
    exponent range, gives a normal float. *)
Lemma binary_round_aux_normal (s : bool) (m e : Z) (l : location) :
  Float.two52 <= m < Float.two54 -> -1074 <= e <= 969 ->
  exists m' e',
    binary_round_aux prec emax s m e l = S754_finite s m' e'
    /\ bounded prec emax m' e' = true.
Proof.
  intros Hm He. unfold binary_round_aux.
  destruct (shr_fexp_normal m e l Hm (proj1 He)) as (mrs' & -> & Hm' & _).
  set (e' := if m <? Float.two53 then e else e + 1).
  assert (e <= e' <= e + 1) as He' by (unfold e'; destruct (m <? Float.two53); lia).
  pose proof (round_nearest_even_bounds (shr_m mrs') (loc_of_shr_record mrs')) as Hr.
  set (m2 := round_nearest_even _ _) in *.
  assert (Float.two52 <= m2 < Float.two54) as Hm2
    by (unfold Float.two52, Float.two53, Float.two54 in *; lia).
  destruct (shr_fexp_normal m2 e' loc_Exact Hm2 ltac:(lia))
    as (mrs'' & -> & Hm'' & Hsame).
  set (e'' := if m2 <? Float.two53 then e' else e' + 1).
  assert (e' <= e'' <= e' + 1) as He'' by (unfold e''; destruct (m2 <? Float.two53); lia).
  destruct (shr_m mrs'') as [| p | p] eqn:Hp; try (unfold Float.two52 in Hm''; lia).
  replace (e'' <=? emax - prec) with true
    by (symmetry; apply Z.leb_le; unfold emax, prec; lia).
  exists p, e''. split; [reflexivity |].
  unfold bounded, canonical_mantissa.
  assert (Zpos (digits2_pos p) = 53) as Hd.
  { apply digits2_pos_unique. change (2 ^ (53 - 1)) with Float.two52.
    change (2 ^ 53) with Float.two53. lia. }
  rewrite Hd.
  replace (fexp prec emax (53 + e'')) with e''
    by (unfold fexp, SpecFloat.emin, prec, emax; lia).
  rewrite Z.eqb_refl. simpl. apply Z.leb_le. unfold emax, prec. lia.
Qed.

(** The quotient of two positive integers below 2^53, as [SFdiv] computes it
    before rounding: a mantissa of 53 or 54 bits. *)
Lemma SFdiv_core_exact_ints (a b : positive) :
  Zpos a < Float.two53 -> Zpos b < Float.two53 ->
  exists q e l,
    SFdiv_core_binary prec emax (Zpos a) 0 (Zpos b) 0 = (q, e, l)
    /\ Float.two52 <= q < Float.two54 /\ -1074 <= e <= 969.
Proof.
  intros Ha Hb.
  pose proof (digits2_pos_bounds a) as [A1 A2].
  pose proof (digits2_pos_bounds b) as [B1 B2].
  unfold SFdiv_core_binary. simpl Zdigits2.
  set (da := Zpos (digits2_pos a)) in *. set (db := Zpos (digits2_pos b)) in *.
  assert (1 <= da <= 53) as Hda.
  { split; [unfold da; lia |].
    assert (2 ^ (da - 1) < 2 ^ 53) as Hp by (change (2 ^ 53) with Float.two53; lia).
    apply Z.pow_lt_mono_r_iff in Hp; lia. }
  assert (1 <= db <= 53) as Hdb.
  { split; [unfold db; lia |].
    assert (2 ^ (db - 1) < 2 ^ 53) as Hp by (change (2 ^ 53) with Float.two53; lia).
    apply Z.pow_lt_mono_r_iff in Hp; lia. }
  replace (Z.min (fexp prec emax (da + 0 - (db + 0))) (0 - 0)) with (da - db - 53)
    by (unfold fexp, SpecFloat.emin, prec, emax; lia).
  replace (0 - 0 - (da - db - 53)) with (53 + db - da) by lia.
  destruct (53 + db - da) as [| s | s] eqn:Hs; try lia.
  rewrite Z.shiftl_mul_pow2 by lia. rewrite <- Hs.
  set (P := 2 ^ (53 + db - da)).
  assert (2 ^ (da - 1) * P = Float.two53 * 2 ^ (db - 1)) as HP.
  { unfold P. change Float.two53 with (2 ^ 53).
    rewrite <- !Z.pow_add_r by lia. f_equal. lia. }
  assert (2 ^ da = 2 * 2 ^ (da - 1)) as HA
    by (rewrite <- Z.pow_succ_r by lia; f_equal; lia).
  assert (2 ^ db = 2 * 2 ^ (db - 1)) as HB
    by (rewrite <- Z.pow_succ_r by lia; f_equal; lia).
  assert (0 < P) as HPpos by (apply Z.pow_pos_nonneg; lia).
  assert (0 < 2 ^ (da - 1)) as HApos by (apply Z.pow_pos_nonneg; lia).
  assert (0 < 2 ^ (db - 1)) as HBpos by (apply Z.pow_pos_nonneg; lia).
  set (A := 2 ^ (da - 1)) in *. set (B := 2 ^ (db - 1)) in *.
  pose proof (Z_div_mod (Zpos a * P) (Zpos b) ltac:(lia)) as Hdiv.
  destruct (Z.div_eucl (Zpos a * P) (Zpos b)) as [q r].
  destruct Hdiv as [Hq Hr].
  exists q, (da - db - 53), (new_location (Zpos b) r).
  split; [reflexivity |]. split; [| lia].
  unfold Float.two52, Float.two53, Float.two54 in *. nia.
Qed.

(** The quotient of two such integers, neither zero, is a float other than
    zero: true division of them returns, and not a zero. *)
Lemma int_truediv_exact_ints (a b : Z) :
  a <> 0 -> b <> 0 -> Z.abs a < Float.two53 -> Z.abs b < Float.two53 ->
  exists t, int_truediv a b = Ok t /\ (t =? 0)%float = false.
Proof.
  intros Ha Hb Ha53 Hb53. unfold int_truediv.
  destruct (Z.eqb_spec b 0) as [| _]; [contradiction |].
  assert (forall (sa sb : bool) (pa pb : positive),
            Zpos pa < Float.two53 -> Zpos pb < Float.two53 ->
            exists t,
              match SFdiv prec emax (S754_finite sa pa 0) (S754_finite sb pb 0) with
              | S754_infinity _ => Raise OverflowError
              | q => Ok (SF2Prim q)
              end = Ok t /\ (t =? 0)%float = false) as Hquot.
  { intros sa sb pa pb Hpa Hpb. unfold SFdiv.
    destruct (SFdiv_core_exact_ints pa pb Hpa Hpb) as (q & e & l & -> & Hq & He).
    destruct (binary_round_aux_normal (xorb sa sb) q e l Hq He)
      as (m' & e' & -> & Hvalid).
    eexists. split; [reflexivity |].
    rewrite FloatAxioms.eqb_spec, Prim2SF_SF2Prim by exact Hvalid.
    change (Prim2SF 0) with (S754_zero false).
    unfold SFeqb. simpl. destruct (xorb sa sb); reflexivity. }
  destruct a as [| pa | pa], b as [| pb | pb]; try contradiction;
    apply Hquot; lia.
Qed.

End ExactInts.

(** * Line intersection *)

Section IntersectionFacts.
Import Intersection.

(** When the lines are not parallel the code returns the intersection
    point of the algorithm, and the extension its [nb] selects. *)
Lemma cgt_intersection_not_parallel (N C : QLineF.t) :
  parallel N C = false ->
  cgt_intersection N C =
    Ok (point N C,
        if (nb N C <? 0)%float then Some (QLineF.make (QLineF.p1 C) (point N C))
        else if (1 <? nb N C)%float then Some (QLineF.make (QLineF.p2 C) (point N C))
        else None).
Proof.
  intros Hp. unfold parallel, denominator, a, b in Hp.
  unfold cgt_intersection. rewrite Hp.
  apply orb_false_elim in Hp as [Hz _].
  unfold float_truediv. rewrite Hz. reflexivity.
Qed.

Lemma cgt_intersection_parallel (N C : QLineF.t) :
  parallel N C = true ->
  cgt_intersection N C = Raise ParallelLinesError.
Proof.
  intros Hp. unfold parallel, denominator, a, b in Hp.
  unfold cgt_intersection. rewrite Hp. reflexivity.
Qed.

(** C2: [cgt_intersection] fails, with the error raised for parallel
    lines, exactly when the denominator [a.y*b.x - a.x*b.y] is zero or not
    finite; it raises nothing else; and it fails for the parallel segments
    (0,0)-(0,10) and (1,0)-(1,10). *)
Theorem cgt_intersection_fails_iff_parallel (N C : QLineF.t) :
  (cgt_intersection N C = Raise ParallelLinesError <->
     (denominator N C =? 0)%float = true \/ isfinite (denominator N C) = false)
  /\ (forall e, cgt_intersection N C = Raise e -> e = ParallelLinesError)
  /\ cgt_intersection (QLineF.of_coords 0 0 0 10) (QLineF.of_coords 1 0 1 10)
     = Raise ParallelLinesError.
Proof.
  split; [| split].
  - destruct (parallel N C) eqn:Hp.
    + split; intros _.
      * unfold parallel in Hp. apply orb_true_iff in Hp as [Hz | Hf].
        -- left; exact Hz.
        -- right. now apply negb_true_iff in Hf.
      * now apply cgt_intersection_parallel.
    + rewrite (cgt_intersection_not_parallel _ _ Hp).
      split; [discriminate |].
      unfold parallel in Hp. apply orb_false_elim in Hp as [Hz Hf].
      apply negb_false_iff in Hf.
      intros [H | H]; congruence.
  - intros e. destruct (parallel N C) eqn:Hp.
    + rewrite (cgt_intersection_parallel _ _ Hp). congruence.
    + rewrite (cgt_intersection_not_parallel _ _ Hp). discriminate.
  - vm_compute. reflexivity.
Qed.

(** C3: for a pair of segments that is not parallel, the code returns the
    intersection point together with: the segment from [C.p1] to that point
    when [nb < 0]; the segment from [C.p2] to that point when [nb > 1]; no
    extension when [0 <= nb <= 1]. *)
Theorem cgt_intersection_extension (N C : QLineF.t) :
  parallel N C = false ->
  ((nb N C <? 0)%float = true ->
     cgt_intersection N C
     = Ok (point N C, Some (QLineF.make (QLineF.p1 C) (point N C))))
  /\ ((1 <? nb N C)%float = true ->
     cgt_intersection N C
     = Ok (point N C, Some (QLineF.make (QLineF.p2 C) (point N C))))
  /\ ((0 <=? nb N C)%float = true /\ (nb N C <=? 1)%float = true ->
     cgt_intersection N C = Ok (point N C, None)).
Proof.
  intros Hp. rewrite (cgt_intersection_not_parallel _ _ Hp).
  split; [| split].
  - intros ->. reflexivity.
  - intros H1. rewrite (above_one_not_negative _ H1), H1. reflexivity.
  - intros [H0 H1].
    rewrite (float_leb_not_ltb _ _ H0), (float_leb_not_ltb _ _ H1). reflexivity.
Qed.

(** The normal (0,0)-(0,10) meets the clone (-5,5)-(-1,5) beyond its
    second end, at [nb = 1.25]. *)
Lemma cgt_intersection_extension_witness :
  let N := QLineF.of_coords 0 0 0 10 in
  let C := QLineF.of_coords (-5) 5 (-1) 5 in
  parallel N C = false /\ (1 <? nb N C)%float = true
  /\ cgt_intersection N C
     = Ok (QPointF.make 0 5,
           Some (QLineF.make (QPointF.make (-1) 5) (QPointF.make 0 5))).
Proof.
  split; [reflexivity | split; [reflexivity |]].
  exact (proj1 (proj2 (cgt_intersection_extension
                         (QLineF.of_coords 0 0 0 10)
                         (QLineF.of_coords (-5) 5 (-1) 5)
                         eq_refl)) eq_refl).
Defined.

(** C4: the normal (0,0)-(0,10) and the clone (-5,5)-(5,5) meet at (0,5),
    inside the clone: no extension is returned. *)
Theorem cgt_intersection_crossing :
  cgt_intersection (QLineF.of_coords 0 0 0 10) (QLineF.of_coords (-5) 5 5 5)
  = Ok (QPointF.make 0 5, None).
Proof. vm_compute. reflexivity. Qed.

End IntersectionFacts.

(** * Conversion between records and items *)

Section RoundTrip.
Context {QPen : Type} `{Parsers}.

(** A coordinate compares equal to zero when it is tiny. *)
Lemma coordinate_equal_zero (c : float) :
  coordinate_equal 0 c = qFuzzyIsNull c.
Proof.
  unfold coordinate_equal. change ((0 =? 0)%float || (c =? 0)%float) with true.
  cbv iota. unfold qFuzzyIsNull, qAbs.
  rewrite !FloatAxioms.leb_spec.
  assert (forall t,
            Prim2SF (if SFleb (Prim2SF 0) (Prim2SF t) then t else (- t)%float)
            = if SFleb (Prim2SF 0) (Prim2SF t) then Prim2SF t
              else SFopp (Prim2SF t)) as E.
  { intros t. destruct (SFleb _ _); [reflexivity | apply FloatAxioms.opp_spec]. }
  rewrite !E, FloatAxioms.sub_spec.
  change (Prim2SF 0) with (S754_zero false).
  destruct (Prim2SF c) as [s | s | | s m e]; try (destruct s; reflexivity);
    try reflexivity.
Qed.

(** A new item sent to a position: tiny positions leave it at the
    origin. *)
Lemma setPos_new (p : QPointF.t) :
  setPos QGraphicsItem.new p
  = QGraphicsItem.make (Settling.position p) ∅ 0.
Proof.
  unfold setPos, Settling.position, Settling.tiny, point_equal. simpl.
  rewrite !coordinate_equal_zero.
  destruct (qFuzzyIsNull (QPointF.x p) && qFuzzyIsNull (QPointF.y p));
    [reflexivity | now destruct p].
Qed.

(** A new line item: tiny lines leave the null line in place. *)
Lemma new_line_item_line (x1 y1 x2 y2 : float) :
  new_line_item (QPen := QPen) x1 y1 x2 y2
  = LineItem QGraphicsItem.new
      (Settling.segment (QLineF.of_coords x1 y1 x2 y2)) None.
Proof.
  unfold new_line_item, setLine, Settling.segment, Settling.tiny, line_equal,
    point_equal. simpl.
  rewrite !coordinate_equal_zero.
  destruct (_ && _); reflexivity.
Qed.

(** The item built from a record: where each field ends up. *)
Lemma list_to_g_point_item (id f1 f2 f3 f4 f5 f6 : object) (rest : list object)
    (cx cy px py : float) (frame region : Z) (pen : QPen) :
  float_ f1 = Ok cx -> float_ f2 = Ok cy ->
  float_ f3 = Ok px -> float_ f4 = Ok py ->
  int_ f5 = Ok frame -> int_ f6 = Ok region ->
  exists item,
    list_to_g_point (id :: f1 :: f2 :: f3 :: f4 :: f5 :: f6 :: rest) pen = Ok item
    /\ pos (path_base item) = Settling.position (QPointF.make px py)
    /\ data (path_base item) CROSS_CENTRE = PPoint (QPointF.make cx cy)
    /\ data (path_base item) FRAME_NUMBER = PInt frame
    /\ data (path_base item) REGION_INDEX = PInt region
    /\ data (path_base item) ITEM_TYPE = PMarker POINT
    /\ path item = make_cross_path (QPointF.make cx cy)
    /\ path_pen item = Some pen.
Proof.
  intros H1 H2 H3 H4 H5 H6. unfold list_to_g_point, getitem. simpl.
  rewrite H1, H2, H3, H4, H5, H6. simpl. rewrite setPos_new.
  eexists. split; [reflexivity |].
  repeat split.
Qed.

Lemma list_to_g_line_item (id f1 f2 f3 f4 f5 f6 f7 f8 : object)
    (rest : list object) (x1 y1 x2 y2 px py : float) (frame region : Z)
    (pen : QPen) :
  float_ f1 = Ok x1 -> float_ f2 = Ok y1 ->
  float_ f3 = Ok x2 -> float_ f4 = Ok y2 ->
  float_ f5 = Ok px -> float_ f6 = Ok py ->
  int_ f7 = Ok frame -> int_ f8 = Ok region ->
  exists item,
    list_to_g_line (id :: f1 :: f2 :: f3 :: f4 :: f5 :: f6 :: f7 :: f8 :: rest) pen
    = Ok item
    /\ pos (line_base item) = Settling.position (QPointF.make px py)
    /\ line item = Settling.segment (QLineF.of_coords x1 y1 x2 y2)
    /\ data (line_base item) FRAME_NUMBER = PInt frame
    /\ data (line_base item) REGION_INDEX = PInt region
    /\ data (line_base item) ITEM_TYPE = PMarker LINE
    /\ line_pen item = Some pen.
Proof.
  intros H1 H2 H3 H4 H5 H6 H7 H8. unfold list_to_g_line, getitem. simpl.
  rewrite H1, H2, H3, H4, H5, H6, H7, H8. simpl.
  rewrite new_line_item_line, setPos_new.
  eexists. split; [reflexivity |].
  repeat split.
Qed.

(** A position comes back as it was sent exactly when it is kept. *)
Lemma position_kept (p : QPointF.t) :
  Settling.position p = p <-> Settling.kept p.
Proof.
  unfold Settling.position, Settling.kept.
  destruct (Settling.tiny p); split.
  - intros <-. now left.
  - intros [-> | ?]; [reflexivity | discriminate].
  - now right.
  - reflexivity.
Qed.

Lemma segment_kept (l : QLineF.t) :
  Settling.segment l = l <-> Settling.kept_line l.
Proof.
  unfold Settling.segment, Settling.kept_line.
  destruct (Settling.tiny (QLineF.p1 l) && Settling.tiny (QLineF.p2 l)); split.
  - intros <-. now left.
  - intros [-> | ?]; [reflexivity | discriminate].
  - now right.
  - reflexivity.
Qed.

Ltac valid_fields F Hv :=
  repeat (destruct F as [| [] F]; simpl in Hv; try contradiction).

(** C1, as amended: a valid record of a point, converted to an item with
    [list_to_g_point] and back with [g_point_to_tuple], gives back its
    numeric fields (the centre, the position, the frame and the region: the
    record without its identifier), each the very same float or integer, in
    the same order, if and only if its position is kept: it is (0.0, 0.0), or
    one of its coordinates is more than 0.000000000001 in magnitude or not a
    number.  A valid record of a line does so with [list_to_g_line] and
    [g_line_to_tuple] if and only if its position is kept and so is its line:
    its four coordinates are 0.0, or one of them is more than 0.000000000001
    in magnitude or not a number.  Both conversions return for every valid
    record. *)
Theorem fields_round_trip (point_fields line_fields : list object) (pen : QPen) :
  valid_point_fields point_fields ->
  valid_line_fields line_fields ->
  (exists item,
     list_to_g_point point_fields pen = Ok item
     /\ (g_point_to_tuple item = Ok (tl point_fields)
         <-> Settling.point_kept point_fields))
  /\ (exists item,
     list_to_g_line line_fields pen = Ok item
     /\ (g_line_to_tuple item = tl line_fields
         <-> Settling.line_kept line_fields)).
Proof.
  intros Hp Hl. split.
  - destruct point_fields as [| id F]; [contradiction |].
    valid_fields F Hp.
    edestruct (list_to_g_point_item id) as (item & -> & Hpos & Hc & Hf & Hr & _);
      try reflexivity.
    exists item. split; [reflexivity |].
    unfold g_point_to_tuple. rewrite Hpos, Hc, Hf, Hr.
    cbn [Py.bind point_x point_y tl Settling.point_kept QPointF.x QPointF.y].
    rewrite <- position_kept.
    destruct (Settling.position _) as [qx qy]. cbn [QPointF.x QPointF.y].
    split; [intros [= -> ->] | intros [= -> ->]]; reflexivity.
  - destruct line_fields as [| id F]; [contradiction |].
    valid_fields F Hl.
    edestruct (list_to_g_line_item id) as (item & -> & Hpos & Hline & Hf & Hr & _);
      try reflexivity.
    exists item. split; [reflexivity |].
    unfold g_line_to_tuple. rewrite Hpos, Hline, Hf, Hr.
    cbn [tl Settling.line_kept].
    rewrite <- position_kept, <- segment_kept.
    destruct (Settling.position _) as [qx qy].
    destruct (Settling.segment _) as [[u1 v1] [u2 v2]].
    unfold QLineF.x1, QLineF.y1, QLineF.x2, QLineF.y2, QLineF.of_coords.
    cbn [QPointF.x QPointF.y QLineF.p1 QLineF.p2].
    split; [intros [= -> -> -> -> -> ->]; split; reflexivity
           | intros [[= -> -> -> ->] [= -> ->]]; reflexivity].
Qed.

(** A record holding text is converted through the parsers: the fields
    that come back are the numbers read, not the text; the position comes
    back as the new item took it, (0.0, 0.0) when both its coordinates are at
    most 0.000000000001 in magnitude. *)
Lemma point_fields_read (id f1 f2 f3 f4 f5 f6 : object) (rest : list object)
    (cx cy px py : float) (frame region : Z) (pen : QPen) :
  float_ f1 = Ok cx -> float_ f2 = Ok cy ->
  float_ f3 = Ok px -> float_ f4 = Ok py ->
  int_ f5 = Ok frame -> int_ f6 = Ok region ->
  (do item <- list_to_g_point (id :: f1 :: f2 :: f3 :: f4 :: f5 :: f6 :: rest) pen;
   g_point_to_tuple item)
  = Ok (if qFuzzyIsNull px && qFuzzyIsNull py
        then [PFloat cx; PFloat cy; PFloat 0; PFloat 0; PInt frame; PInt region]
        else [PFloat cx; PFloat cy; PFloat px; PFloat py; PInt frame;
              PInt region]).
Proof.
  intros H1 H2 H3 H4 H5 H6.
  destruct (list_to_g_point_item id f1 f2 f3 f4 f5 f6 rest cx cy px py
              frame region pen H1 H2 H3 H4 H5 H6)
    as (item & -> & Hpos & Hc & Hf & Hr & _).
  simpl. unfold g_point_to_tuple. rewrite Hpos, Hc, Hf, Hr.
  unfold Settling.position, Settling.tiny. simpl.
  destruct (qFuzzyIsNull px && qFuzzyIsNull py); reflexivity.
Qed.

End RoundTrip.

Lemma fields_round_trip_witness :
  let P := [PStr "p7"; PFloat 1.5; PFloat 2; PFloat (-3); PFloat 0.25;
            PInt 12; PInt 3] in
  let L := [PInt 4; PFloat 0; PFloat 1; PFloat 10; PFloat 11; PFloat 0.5;
            PFloat (-0.5); PInt 12; PInt 3] in
  valid_point_fields P /\ valid_line_fields L
  /\ Settling.point_kept P /\ Settling.line_kept L
  /\ (exists item,
        list_to_g_point (H := no_text) P tt = Ok item
        /\ (g_point_to_tuple item = Ok (tl P) <-> Settling.point_kept P))
  /\ (exists item,
        list_to_g_line (H := no_text) L tt = Ok item
        /\ (g_line_to_tuple item = tl L <-> Settling.line_kept L)).
Proof.
  split; [exact I | split; [exact I |]].
  split; [right; reflexivity |]. split; [split; right; reflexivity |].
  exact (fields_round_trip (H := no_text)
           [PStr "p7"; PFloat 1.5; PFloat 2; PFloat (-3); PFloat 0.25;
            PInt 12; PInt 3]
           [PInt 4; PFloat 0; PFloat 1; PFloat 10; PFloat 11; PFloat 0.5;
            PFloat (-0.5); PInt 12; PInt 3]
           tt I I).
Defined.

(** A valid record of a point with the position (2^-50, 0.0), and a valid
    record of a line from (2^-50, 0.0) to (0.0, 2^-50): the position comes
    back as (0.0, 0.0), and the line as the null line. *)
Lemma fields_round_trip_tiny :
  valid_point_fields
    [PInt 1; PFloat 1; PFloat 2; PFloat 0x1p-50; PFloat 0; PInt 3; PInt 4]
  /\ (do item <- list_to_g_point (H := no_text)
                   [PInt 1; PFloat 1; PFloat 2; PFloat 0x1p-50; PFloat 0;
                    PInt 3; PInt 4] tt;
      g_point_to_tuple item)
     = Ok [PFloat 1; PFloat 2; PFloat 0; PFloat 0; PInt 3; PInt 4]
  /\ [PFloat 1; PFloat 2; PFloat 0; PFloat 0; PInt 3; PInt 4]
     <> tl [PInt 1; PFloat 1; PFloat 2; PFloat 0x1p-50; PFloat 0; PInt 3;
            PInt 4]
  /\ valid_line_fields
       [PInt 1; PFloat 0x1p-50; PFloat 0; PFloat 0; PFloat 0x1p-50;
        PFloat 5; PFloat 6; PInt 3; PInt 4]
  /\ (do item <- list_to_g_line (H := no_text)
                   [PInt 1; PFloat 0x1p-50; PFloat 0; PFloat 0;
                    PFloat 0x1p-50; PFloat 5; PFloat 6; PInt 3; PInt 4] tt;
      Ok (g_line_to_tuple item))
     = Ok [PFloat 0; PFloat 0; PFloat 0; PFloat 0; PFloat 5; PFloat 6;
           PInt 3; PInt 4]
  /\ [PFloat 0; PFloat 0; PFloat 0; PFloat 0; PFloat 5; PFloat 6; PInt 3;
      PInt 4]
     <> tl [PInt 1; PFloat 0x1p-50; PFloat 0; PFloat 0; PFloat 0x1p-50;
            PFloat 5; PFloat 6; PInt 3; PInt 4].
Proof.
  pose (bits := fun o => match o with
                        | PFloat f => Prim2SF f
                        | _ => S754_nan
                        end).
  split; [exact I |]. split; [vm_compute; reflexivity |].
  split; [intros E; apply (f_equal (fun l => bits (nth 2 l PNone))) in E;
          vm_compute in E; discriminate E |].
  split; [exact I |]. split; [vm_compute; reflexivity |].
  intros E. apply (f_equal (fun l => bits (nth 0 l PNone))) in E.
  vm_compute in E. discriminate E.
Qed.

(** A record read from text. *)
Lemma point_fields_read_witness :
  (do item <- list_to_g_point (H := two_words)
                [PInt 0; PStr "1.5"; PInt 2; PFloat 3; PFloat 4; PStr "7";
                 PFloat 2.5]
                tt;
   g_point_to_tuple item)
  = Ok [PFloat 1.5; PFloat 2; PFloat 3; PFloat 4; PInt 7; PInt 2].
Proof.
  exact (point_fields_read (H := two_words)
           (PInt 0) (PStr "1.5") (PInt 2) (PFloat 3) (PFloat 4) (PStr "7")
           (PFloat 2.5) [] 1.5 2 3 4 7 2 tt
           eq_refl eq_refl eq_refl eq_refl eq_refl eq_refl).
Defined.

(** * The changed flag of a project *)

Section ProjectFacts.
Context {Results : Type} `{Parsers}.
Variable results_has_been_changed : Results -> bool.
Variable results_reset_changed : Results -> Results.

#[local] Abbreviation project := (@CGTProject Results).
#[local] Abbreviation changed := (has_been_changed results_has_been_changed).
#[local] Abbreviation reset := (reset_changed results_reset_changed).
#[local] Abbreviation history := (run results_reset_changed).

Lemma setitem_holds_results (self : project) (item : string) (v : value) :
  holds_results self -> holds_results (__setitem__ self item v).
Proof.
  unfold holds_results, __setitem__. simpl. intros Hr.
  destruct (decide (item = "results")) as [-> | Hne].
  - rewrite lookup_insert_eq. eauto.
  - rewrite lookup_insert_ne by exact Hne. exact Hr.
Qed.

Lemma step_holds_results (self : project) (c : call) :
  holds_results self -> holds_results (step results_reset_changed self c).
Proof.
  intros Hr. destruct c as [item v | env | | | | f]; simpl.
  - now apply setitem_holds_results.
  - unfold init_new_project. repeat apply setitem_holds_results. exact Hr.
  - unfold ensure_numeric.
    destruct (do v <- __getitem__ self "resolution"; value_float v)
      as [resolution |]; [| exact Hr].
    destruct (do v <- __getitem__ _ "frame_rate"; value_float v)
      as [frame_rate |]; simpl; repeat apply setitem_holds_results; exact Hr.
  - exact Hr.
  - destruct Hr as [v Hv]. unfold reset_changed, __getitem__. simpl.
    rewrite Hv. unfold holds_results.
    destruct v; simpl; rewrite ?Hv, ?lookup_insert_eq; eauto.
  - destruct Hr as [v Hv]. rewrite Hv. unfold holds_results.
    destruct v; simpl; rewrite ?Hv, ?lookup_insert_eq; eauto.
Qed.

Lemma history_snoc (calls : list call) (c : call) :
  history (calls ++ [c]) = step results_reset_changed (history calls) c.
Proof. unfold run. now rewrite fold_left_app. Qed.

Lemma history_holds_results (calls : list call) : holds_results (history calls).
Proof.
  induction calls as [| c calls IH] using rev_ind.
  - unfold holds_results. vm_compute. eauto.
  - rewrite history_snoc. now apply step_holds_results.
Qed.

(** With the flag set, a project that holds results reports a change. *)
Lemma changed_when_flag_set (self : project) :
  holds_results self -> _changed self = true -> changed self = Ok true.
Proof.
  intros [v Hv] Hc. unfold has_been_changed, __getitem__.
  rewrite Hv. simpl. rewrite Hc. destruct v; reflexivity.
Qed.

(** A project reports no change only with its flag cleared. *)
Lemma unchanged_flag_cleared (self : project) :
  changed self = Ok false -> _changed self = false.
Proof.
  unfold has_been_changed, __getitem__.
  destruct (items self !! "results") as [v |]; simpl; [| discriminate].
  destruct v; destruct (_changed self); simpl; congruence.
Qed.

(** The flag is clear only after a [reset_changed] that no later call to
    the project undid. *)
Lemma flag_cleared_by_reset (calls : list call) :
  _changed (history calls) = false ->
  exists before after,
    calls = before ++ ResetChanged :: after
    /\ forallb leaves_flag after = true.
Proof.
  induction calls as [| c calls IH] using rev_ind.
  - vm_compute. discriminate.
  - rewrite history_snoc.
    destruct c as [item v | env | | | | f]; simpl; try discriminate.
    + unfold ensure_numeric.
      destruct (do v <- __getitem__ (history calls) "resolution"; value_float v)
        as [resolution |].
      * destruct (do v <- __getitem__ _ "frame_rate"; value_float v);
          discriminate.
      * intros Hc. destruct (IH Hc) as (before & after & -> & Hafter).
        exists before, (after ++ [EnsureNumeric]). split.
        -- now rewrite <- app_assoc.
        -- rewrite forallb_app, Hafter. reflexivity.
    + intros _. exists calls, []. split; reflexivity.
    + intros Hc.
      assert (_changed (history calls) = false) as Hc'.
      { destruct (items (history calls) !! "results") as [[| | | | r] |];
          exact Hc. }
      destruct (IH Hc') as (before & after & -> & Hafter).
      exists before, (after ++ [ChangeResults f]). split.
      * now rewrite <- app_assoc.
      * rewrite forallb_app, Hafter. reflexivity.
Qed.

(** What a project reports right after [reset_changed]. *)
Lemma changed_after_reset (self : project) :
  changed (fst (reset self)) =
    match items self !! "results" with
    | Some VNone => Ok false
    | Some (VResults r) =>
        Ok (results_has_been_changed (results_reset_changed r))
    | Some _ => Raise AttributeError
    | None => Raise (KeyError "results")
    end.
Proof.
  unfold reset_changed, has_been_changed, __getitem__. simpl.
  destruct (items self !! "results") as [[| | | | r] |] eqn:Hl; simpl;
    rewrite ?Hl, ?lookup_insert_eq; reflexivity.
Qed.

(** C10: after any history of calls, [__setitem__] leaves a project that
    reports a change; so does [__init__], which clears the flag and then
    stores its default keys through [__setitem__]; a project reports no
    change only after a [reset_changed] that no later write of its flag
    followed; and after [reset_changed] it reports no change exactly when
    the stored results are absent or report no change themselves. *)
Theorem setitem_marks_changed :
  (forall calls item v, changed (__setitem__ (history calls) item v) = Ok true)
  /\ changed __init__ = Ok true
  /\ (forall calls,
        changed (history calls) = Ok false ->
        exists before after,
          calls = before ++ ResetChanged :: after
          /\ forallb leaves_flag after = true)
  /\ (forall calls,
        changed (history (calls ++ [ResetChanged])) = Ok false <->
        items (history calls) !! "results" = Some VNone
        \/ exists r,
             items (history calls) !! "results" = Some (VResults r)
             /\ results_has_been_changed (results_reset_changed r) = false).
Proof.
  split; [| split; [| split]].
  - intros calls item v. apply changed_when_flag_set; [| reflexivity].
    apply setitem_holds_results, history_holds_results.
  - vm_compute. reflexivity.
  - intros calls Hc. now apply flag_cleared_by_reset, unchanged_flag_cleared.
  - intros calls. rewrite history_snoc. simpl. rewrite changed_after_reset.
    destruct (items (history calls) !! "results") as [[| | | | r] |]; split;
      try discriminate; try (intros [Hn | (r' & Hr & _)]; congruence).
    + intros _. now left.
    + intros Hr. right. exists r. split; [reflexivity | congruence].
    + intros [Hn | (r' & Hr & Hu)]; [discriminate |].
      injection Hr as ->. now rewrite Hu.
Qed.

End ProjectFacts.

(** * Rectangles *)

Section Rectangles.
Import Normalised.

(** Python's [min] of two numbers: symmetric up to the sign of zero. *)
Lemma min_swap (u v : float) :
  is_nan u = false -> is_nan v = false -> (Py.min u v =? Py.min v u)%float = true.
Proof.
  intros Hu Hv. unfold Py.min.
  destruct (v <? u)%float eqn:Hvu, (u <? v)%float eqn:Huv.
  - now rewrite (float_ltb_antisym _ _ Hvu) in Huv.
  - now apply float_eqb_refl.
  - now apply float_eqb_refl.
  - now apply float_not_ltb_eqb.
Qed.

Lemma min_smaller (u v : float) :
  is_nan u = false -> is_nan v = false -> smaller_of (Py.min u v) u v.
Proof.
  intros Hu Hv. unfold Py.min, smaller_of.
  destruct (v <? u)%float eqn:Hvu.
  - split; [now right |]. split; [now apply float_ltb_leb | now apply float_leb_refl].
  - split; [now left |]. split; [now apply float_leb_refl | now apply float_not_ltb_leb].
Qed.

Lemma smaller_of_swap (m u v : float) : smaller_of m u v -> smaller_of m v u.
Proof. unfold smaller_of. tauto. Qed.

(** Corners with finite coordinates have coordinate differences that are
    numbers. *)
Lemma finite_corners_differences (c1 c2 : QPointF.t) :
  finite_point c1 -> finite_point c2 ->
  is_nan (QPointF.x c2 - QPointF.x c1) = false
  /\ is_nan (QPointF.y c2 - QPointF.y c1) = false.
Proof.
  intros [Hx1 Hy1] [Hx2 Hy2]. split; now apply float_sub_not_nan.
Qed.

(** C7, as amended: whenever the coordinate differences [dx] and [dy] of
    two corners are numbers (not NaN), as they are for corners with finite
    coordinates, [make_positive_rect] gives rectangles with equal numbers for
    both orders of the corners, of width [|dx| >= 0] and height [|dy| >= 0],
    whose top left corner holds the smaller [x] and the smaller [y]. *)
Theorem make_positive_rect_normalises (c1 c2 : QPointF.t) :
  is_nan (QPointF.x c2 - QPointF.x c1) = false ->
  is_nan (QPointF.y c2 - QPointF.y c1) = false ->
  normalises c1 c2.
Proof.
  intros Hdx Hdy.
  destruct (float_sub_nan _ _ Hdx) as [Hx2 Hx1].
  destruct (float_sub_nan _ _ Hdy) as [Hy2 Hy1].
  unfold normalises, make_positive_rect, QRectF.eqb.
  cbn [QRectF.xp QRectF.yp QRectF.w QRectF.h].
  split_and!.
  - rewrite (min_swap _ _ Hx2 Hx1), (min_swap _ _ Hy2 Hy1).
    rewrite (float_abs_sub_swap (QPointF.x c1) (QPointF.x c2)).
    rewrite (float_abs_sub_swap (QPointF.y c1) (QPointF.y c2)).
    rewrite !float_eqb_refl; [reflexivity | |];
      rewrite float_is_nan_spec, FloatAxioms.abs_spec;
      [rewrite float_is_nan_spec in Hdy | rewrite float_is_nan_spec in Hdx];
      destruct (Prim2SF _); simpl; congruence.
  - reflexivity.
  - now apply float_abs_nonneg.
  - reflexivity.
  - now apply float_abs_nonneg.
  - apply smaller_of_swap, min_smaller; assumption.
  - apply smaller_of_swap, min_smaller; assumption.
Qed.

Lemma make_positive_rect_normalises_witness :
  let c1 := QPointF.make 7 (-2) in
  let c2 := QPointF.make 3 5 in
  normalises c1 c2
  /\ make_positive_rect c1 c2 = QRectF.make 3 (-2) 4 7.
Proof.
  split; [| reflexivity].
  exact (make_positive_rect_normalises
           (QPointF.make 7 (-2)) (QPointF.make 3 5) eq_refl eq_refl).
Defined.

(** With a NaN coordinate the two orders of the corners give different
    rectangles, and the width is not a number at all. *)
Lemma make_positive_rect_nan_corner :
  ~ normalises (QPointF.make nan 0) (QPointF.make 1 0).
Proof.
  unfold normalises. intros (Heq & _). vm_compute in Heq. discriminate.
Qed.


(** Within the bound the aligned rectangle exists, and its edges are
    within the bound as well. *)
Lemma toAlignedRect_edges_within (f : QRectF.t) :
  Pixels.edges_within f ->
  exists left top right bottom : Q,
    Float.value (QRectF.left f) = Some left
    /\ Float.value (QRectF.top f) = Some top
    /\ Float.value (QRectF.right f) = Some right
    /\ Float.value (QRectF.bottom f) = Some bottom
    /\ toAlignedRect f
       = Some (QRect.make (Qfloor left) (Qfloor top)
                 (Qceiling right - Qfloor left) (Qceiling bottom - Qfloor top))
    /\ Forall (fun n => Z.abs n <= Pixels.bound)
         [Qfloor left; Qfloor top; Qceiling right; Qceiling bottom].
Proof.
  intros ((left & El & Bl) & (top & Et & Bt) & (right & Er & Br)
          & (bottom & Eb & Bb)).
  exists left, top, right, bottom. repeat (split; [assumption |]).
  split.
  - unfold toAlignedRect, qFloor, qCeil, Float.floor, Float.ceil.
    unfold QRectF.left, QRectF.top, QRectF.right, QRectF.bottom in *.
    rewrite El, Et, Er, Eb. reflexivity.
  - assert (forall q, (inject_Z (- Pixels.bound) <= q <= inject_Z Pixels.bound)%Q ->
                      Z.abs (Qfloor q) <= Pixels.bound
                      /\ Z.abs (Qceiling q) <= Pixels.bound) as B.
    { intros q [Lo Hi].
      pose proof (Qfloor_resp_le _ _ Lo) as F1.
      pose proof (Qfloor_resp_le _ _ Hi) as F2.
      pose proof (Qceiling_resp_le _ _ Lo) as C1.
      pose proof (Qceiling_resp_le _ _ Hi) as C2.
      rewrite Qfloor_Z in F1, F2. rewrite Qceiling_Z in C1, C2. lia. }
    repeat constructor; [apply (B left Bl) | apply (B top Bt)
                         | apply (B right Br) | apply (B bottom Bb)].
Qed.

(** An aligned rectangle within the bound, moved by a point within the
    bound: every integer computed on the way is a value of Qt's [int]. *)
Lemma aligned_fits (l t r b : Z) (p : QPoint.t) :
  Forall (fun n => Z.abs n <= Pixels.bound) [l; t; r; b] ->
  Pixels.point_within p ->
  Pixels.fits (QRect.make l t (r - l) (b - t))
  /\ Pixels.fits (QRect.translate (QRect.make l t (r - l) (b - t)) p).
Proof.
  intros Hb [Hx Hy].
  apply Forall_cons_iff in Hb as [Hl Hb]. apply Forall_cons_iff in Hb as [Ht Hb].
  apply Forall_cons_iff in Hb as [Hr Hb]. apply Forall_cons_iff in Hb as [Hbt _].
  unfold Pixels.bound in *. destruct p as [px py].
  unfold Pixels.fits, int_range, QRect.translate, QRect.make, QRect.width,
    QRect.height. cbn [QRect.x1 QRect.y1 QRect.x2 QRect.y2 QPoint.x QPoint.y] in *.
  split; repeat constructor; lia.
Qed.

(** No integer rectangle that Qt can hold covers a float rectangle
    3000000000 wide: its right edge lies beyond Qt's [int]. *)
Lemma wide_rectangle_not_covered (r : QRect.t) :
  int_range (QRect.x1 r) -> int_range (QRect.x2 r) ->
  ~ Pixels.covers r (QRectF.make 0 0 3000000000 1) 0 0.
Proof.
  intros [Lo1 Hi1] [Lo2 Hi2] (l & t & rt & b & El & Et & Er & Eb & H1 & H2 & _).
  vm_compute in El, Er. injection El as <-. injection Er as <-.
  unfold QRect.left, QRect.width in *.
  assert (inject_Z (QRect.x1 r + (QRect.x2 r - QRect.x1 r + 1))
          <= inject_Z 2147483648)%Q as Hw by (rewrite <- Zle_Qle; lia).
  assert (inject_Z 2147483648 < 3000000000 # 1)%Q as Hc by reflexivity.
  lra.
Qed.

Section RectItems.
Context {QPen : Type}.

(** The result of [get_rect_even_dimensions], spelled out. *)
Lemma get_rect_even_dimensions_unfold (rect_item : @QGraphicsRectItem QPen)
    (aligned : QRect.t) (p : QPoint.t) (even_dimensions : bool) :
  toAlignedRect (rect rect_item) = Some aligned ->
  toPoint (pos (rect_base rect_item)) = Some p ->
  get_rect_even_dimensions rect_item even_dimensions
  = Some (let moved := QRect.translate aligned p in
          if even_dimensions then
            let widened :=
              if (QRect.width moved mod 2 =? 1)%Z
              then QRect.setWidth moved (QRect.width moved + 1) else moved in
            if (QRect.height moved mod 2 =? 1)%Z
            then QRect.setHeight widened (QRect.height moved + 1) else widened
          else moved).
Proof.
  intros Ha Hp. unfold get_rect_even_dimensions. rewrite Ha, Hp. simpl.
  destruct even_dimensions; reflexivity.
Qed.


End RectItems.



End Rectangles.

(** * Velocities *)

Section Velocities.
Import Velocity.
Variables (scale : float) (fps : Z).

(** One turn of the loop. *)
Lemma velocities_loop_cons (frames : Z) (diff : ImageLineDifference)
    (rest : list (Z * ImageLineDifference)) (velocities : list float) :
  velocities_loop ((frames, diff) :: rest) scale fps velocities =
    do time <- int_truediv frames fps;
    do velocity <- float_truediv (difference_to_distance diff scale) time;
    velocities_loop rest scale fps
      (velocities ++ [if (velocity <? 0)%float then (- velocity)%float
                      else velocity]).
Proof.
  simpl. destruct (int_truediv frames fps) as [time |]; [| reflexivity]. simpl.
  destruct (float_truediv _ time) as [velocity |]; [| reflexivity]. simpl.
  destruct (velocity <? 0)%float; reflexivity.
Qed.

Lemma float_truediv_ok (u v w : float) :
  float_truediv u v = Ok w <-> (v =? 0)%float = false /\ w = (u / v)%float.
Proof.
  unfold float_truediv. destruct (v =? 0)%float; split.
  - discriminate.
  - intros [H _]. discriminate.
  - intros [= <-]. split; reflexivity.
  - intros [_ ->]. reflexivity.
Qed.

Lemma velocities_loop_reported (diff_list : list (Z * ImageLineDifference))
    (velocities vs : list float) :
  velocities_loop diff_list scale fps velocities = Ok vs ->
  exists new, vs = velocities ++ new
              /\ Forall2 (reported scale fps) diff_list new.
Proof.
  revert velocities. induction diff_list as [| [frames diff] rest IH];
    intros velocities Hvs.
  - injection Hvs as <-. exists []. split; [now rewrite app_nil_r | constructor].
  - rewrite velocities_loop_cons in Hvs.
    destruct (int_truediv frames fps) as [time |] eqn:Ht; [| discriminate].
    simpl in Hvs.
    destruct (float_truediv _ time) as [velocity |] eqn:Hv; [| discriminate].
    simpl in Hvs. apply float_truediv_ok in Hv as [Hnz ->].
    destruct (IH _ Hvs) as (new & -> & Hnew).
    eexists (_ :: new). split; [now rewrite <- app_assoc |].
    constructor; [| exact Hnew].
    exists time. split; [exact Ht |]. split; [exact Hnz |].
    apply sign_dropped.
Qed.

(** The call returns a list exactly when every elapsed time is a float
    other than zero. *)
Lemma velocities_loop_returns (diff_list : list (Z * ImageLineDifference))
    (velocities : list float) :
  (exists vs, velocities_loop diff_list scale fps velocities = Ok vs)
  <-> Forall (timed fps) diff_list.
Proof.
  revert velocities. induction diff_list as [| [frames diff] rest IH];
    intros velocities.
  - split; [constructor | intros _; now exists velocities].
  - rewrite velocities_loop_cons. split.
    + intros [vs Hvs].
      destruct (int_truediv frames fps) as [time |] eqn:Ht; [| discriminate].
      simpl in Hvs.
      destruct (float_truediv _ time) as [velocity |] eqn:Hv; [| discriminate].
      simpl in Hvs. apply float_truediv_ok in Hv as [Hnz _].
      constructor.
      * exists time. split; assumption.
      * eapply IH. exists vs. exact Hvs.
    + intros Hall. inversion Hall as [| ? ? (time & Ht & Hnz) Hrest]; subst.
      simpl in Ht. rewrite Ht. simpl. unfold float_truediv. rewrite Hnz. simpl.
      now apply IH.
Qed.

(** True division of integers fails in two ways only. *)
Lemma int_truediv_cases (a b : Z) :
  (exists t, int_truediv a b = Ok t)
  \/ int_truediv a b = Raise ZeroDivisionError
  \/ int_truediv a b = Raise OverflowError.
Proof.
  unfold int_truediv. destruct (b =? 0)%Z; [now right; left |].
  destruct (SFdiv prec emax (exact a) (exact b)); eauto.
Qed.

Lemma int_truediv_by_zero (a : Z) : int_truediv a 0 = Raise ZeroDivisionError.
Proof. reflexivity. Qed.

(** No frames take no time: the elapsed time is a zero. *)
Lemma int_truediv_of_zero (b : Z) :
  b <> 0%Z -> exists t, int_truediv 0 b = Ok t /\ (t =? 0)%float = true.
Proof.
  intros Hb. unfold int_truediv.
  destruct (Z.eqb_spec b 0) as [-> | _]; [contradiction |].
  destruct b as [| p | p]; [contradiction | |]; simpl; eauto.
Qed.

(** An entry with no frames, or any entry at a frame rate of zero, stops
    the loop with [ZeroDivisionError]. *)
Lemma velocities_loop_zero_entry (frames : Z) (diff : ImageLineDifference)
    (rest : list (Z * ImageLineDifference)) (velocities : list float) :
  fps = 0%Z \/ frames = 0%Z ->
  velocities_loop ((frames, diff) :: rest) scale fps velocities
  = Raise ZeroDivisionError.
Proof.
  intros Hz. rewrite velocities_loop_cons.
  destruct (Z.eq_dec fps 0) as [-> | Hfps]; [reflexivity |].
  destruct Hz as [Hz | ->]; [contradiction |].
  destruct (int_truediv_of_zero fps Hfps) as (t & -> & Ht). simpl.
  unfold float_truediv. rewrite Ht. reflexivity.
Qed.

Lemma velocities_loop_zero (diff_list : list (Z * ImageLineDifference))
    (velocities : list float) :
  Exists (fun entry => fps = 0%Z \/ fst entry = 0%Z) diff_list ->
  let outcome := velocities_loop diff_list scale fps velocities in
  (outcome = Raise ZeroDivisionError \/ outcome = Raise OverflowError)
  /\ (fps = 0%Z -> outcome = Raise ZeroDivisionError)
  /\ (Forall (fits fps) diff_list -> outcome = Raise ZeroDivisionError).
Proof.
  intros Hex. cbv zeta. revert velocities.
  induction Hex as [[frames diff] rest Hz | [frames diff] rest Hex IH];
    intros velocities.
  - rewrite (velocities_loop_zero_entry _ _ _ _ Hz). auto.
  - destruct (Z.eq_dec fps 0) as [Hfps | Hfps].
    { rewrite (velocities_loop_zero_entry _ _ _ _ (or_introl Hfps)). auto. }
    rewrite velocities_loop_cons.
    destruct (int_truediv_cases frames fps) as [[time Ht] | [Ht | Ht]];
      rewrite Ht; simpl.
    + unfold float_truediv. destruct (time =? 0)%float; simpl; [auto |].
      destruct (IH (velocities ++
                      [if (difference_to_distance diff scale / time <? 0)%float
                       then (- (difference_to_distance diff scale / time))%float
                       else (difference_to_distance diff scale / time)%float]))
        as (H1 & H2 & H3).
      split; [exact H1 |]. split; [exact H2 |].
      intros Hfit. apply H3. now inversion Hfit.
    + auto.
    + split; [now right |]. split; [contradiction |].
      intros Hfit. inversion Hfit as [| ? ? Hhead _]; subst.
      now contradiction Hhead.
Qed.

(** Counts that floats hold exactly give elapsed times other than zero. *)
Lemma counted_timed (diff_list : list (Z * ImageLineDifference)) :
  counted fps -> Forall (fun entry => counted (fst entry)) diff_list ->
  Forall (timed fps) diff_list.
Proof.
  intros [Hfps Hfps53] Hall. induction Hall as [| entry rest [Hn Hn53] _ IH];
    constructor; [| exact IH].
  now apply int_truediv_exact_ints.
Qed.

(** Their quotients fit a float, also when a frame interval is zero. *)
Lemma counted_fits (diff_list : list (Z * ImageLineDifference)) :
  counted fps ->
  Forall (fun entry => Z.abs (fst entry) < Float.two53) diff_list ->
  Forall (fits fps) diff_list.
Proof.
  intros [Hfps Hfps53] Hall. induction Hall as [| entry rest Hn53 _ IH];
    constructor; [| exact IH].
  unfold fits. destruct (Z.eq_dec (fst entry) 0) as [-> | Hn].
  - destruct (int_truediv_of_zero fps Hfps) as (t & -> & _). discriminate.
  - destruct (int_truediv_exact_ints (fst entry) fps Hn Hfps Hn53 Hfps53)
      as (t & -> & _).
    discriminate.
Qed.

End Velocities.

Section VelocityClaims.
Import Velocity.

(** C5, as amended: every velocity [difference_list_to_velocities] returns
    has the magnitude of the raw velocity
    [average * scale / (frame_interval / fps)] and is not negative; when the
    raw velocity is a number (not NaN) it equals that absolute value and is
    at least zero.  The call returns exactly when every elapsed time is a
    float other than zero, as it is when the frame rate and the frame
    intervals are not zero and below 2^53 in magnitude.  For an average of
    -4, scale 2, 5 frames and 10 frames per second it returns the velocity
    16. *)
Theorem velocities_are_magnitudes
    (diff_list : list (Z * ImageLineDifference)) (scale : float) (fps : Z) :
  (forall vs,
     difference_list_to_velocities diff_list scale fps = Ok vs ->
     Forall2 (reported scale fps) diff_list vs)
  /\ ((exists vs, difference_list_to_velocities diff_list scale fps = Ok vs)
      <-> Forall (timed fps) diff_list)
  /\ (counted fps -> Forall (fun entry => counted (fst entry)) diff_list ->
      exists vs, difference_list_to_velocities diff_list scale fps = Ok vs)
  /\ difference_list_to_velocities [(5, {| average := -4 |})] 2 10 = Ok [16%float].
Proof.
  split; [| split; [| split]].
  - intros vs Hvs.
    destruct (velocities_loop_reported _ _ _ _ _ Hvs) as (new & -> & Hnew).
    exact Hnew.
  - apply velocities_loop_returns.
  - intros Hfps Hall. apply velocities_loop_returns.
    now apply counted_timed.
  - vm_compute. reflexivity.
Qed.

Lemma velocities_are_magnitudes_witness :
  let diff_list := [(5, {| average := -4 |}); (3, {| average := 1.5 |})] in
  difference_list_to_velocities diff_list 2 10 = Ok [16; 10]%float
  /\ Forall2 (reported 2 10) diff_list [16; 10]%float.
Proof.
  split; [vm_compute; reflexivity |].
  exact (proj1 (velocities_are_magnitudes
                  [(5, {| average := -4 |}); (3, {| average := 1.5 |})] 2 10)
           [16; 10]%float eq_refl).
Defined.

(** With an average that is not a number the velocity returned is not a
    number either: it is not at least zero. *)
Lemma velocities_nan_average :
  let diff_list := [(1, {| average := nan |})] in
  exists vs,
    difference_list_to_velocities diff_list 1 1 = Ok vs
    /\ ~ Forall2 (magnitude 1 1) diff_list vs.
Proof.
  exists [nan]. split; [vm_compute; reflexivity |].
  intros Hm. inversion Hm as [| ? ? ? ? (time & Ht & _ & Hge) _]; subst.
  vm_compute in Hge. discriminate.
Qed.

(** C6, as amended: for a list with an entry whose frame interval is 0,
    or a non-empty list at a frame rate of 0, [difference_list_to_velocities]
    returns no list: it fails with [ZeroDivisionError] or, when the quotient
    of an earlier entry is too large for a float, with [OverflowError].  It
    is [ZeroDivisionError] whenever the frame rate is 0 and whenever every
    quotient fits. *)
Theorem zero_time_raises
    (diff_list : list (Z * ImageLineDifference)) (scale : float) (fps : Z) :
  Exists (fun entry => fps = 0%Z \/ fst entry = 0%Z) diff_list ->
  let outcome := difference_list_to_velocities diff_list scale fps in
  (forall vs, outcome <> Ok vs)
  /\ (outcome = Raise ZeroDivisionError \/ outcome = Raise OverflowError)
  /\ (fps = 0%Z -> outcome = Raise ZeroDivisionError)
  /\ (Forall (fits fps) diff_list -> outcome = Raise ZeroDivisionError).
Proof.
  intros Hex. cbv zeta.
  destruct (velocities_loop_zero scale fps diff_list [] Hex) as (H1 & H2 & H3).
  split; [| auto].
  intros vs. unfold difference_list_to_velocities.
  destruct H1 as [-> | ->]; discriminate.
Qed.

Lemma zero_time_raises_witness :
  let diff_list :=
    [(5, {| average := -4 |}); (0, {| average := 3 |}); (2, {| average := 1 |})] in
  Exists (fun entry => 10%Z = 0%Z \/ fst entry = 0%Z) diff_list
  /\ Forall (fits 10) diff_list
  /\ difference_list_to_velocities diff_list 2 10 = Raise ZeroDivisionError.
Proof.
  assert (Exists (fun entry : Z * ImageLineDifference => 10%Z = 0%Z \/ fst entry = 0%Z)
            [(5, {| average := -4 |}); (0, {| average := 3 |});
             (2, {| average := 1 |})]) as Hex.
  { apply Exists_cons_tl, Exists_cons_hd. now right. }
  assert (Forall (fits 10)
            [(5, {| average := -4 |}); (0, {| average := 3 |});
             (2, {| average := 1 |})]) as Hfit.
  { repeat constructor; discriminate. }
  split; [exact Hex |]. split; [exact Hfit |].
  exact (proj2 (proj2 (proj2 (zero_time_raises _ 2 10 Hex))) Hfit).
Defined.

(** A frame interval of 2^1024 frames before the interval of 0: the call
    fails on the first, with [OverflowError]. *)
Lemma zero_time_after_overflow :
  let diff_list := [(2 ^ 1024, {| average := 1 |}); (0, {| average := 1 |})] in
  Exists (fun entry => fst entry = 0%Z) diff_list
  /\ difference_list_to_velocities diff_list 1 1 = Raise OverflowError
  /\ difference_list_to_velocities diff_list 1 1 <> Raise ZeroDivisionError.
Proof.
  split; [| split].
  - apply Exists_cons_tl, Exists_cons_hd. reflexivity.
  - vm_compute. reflexivity.
  - vm_compute. discriminate.
Qed.

End VelocityClaims.

(** * Arrow heads *)

Section ArrowHeads.
Context `{LineGeometry}.


(** A line at least as long as the default cutoff gets a triangle whose
    first vertex is the end of the line. *)
Lemma make_arrow_head_long (line : QLineF.t) :
  (default_length_cutoff <=? length line)%float = true ->
  exists v w,
    make_arrow_head line default_length_cutoff
    = Ok (Some [QLineF.p2 line; v; w]).
Proof.
  intros Hlong. unfold make_arrow_head.
  rewrite (float_leb_not_ltb _ _ Hlong).
  assert ((length line =? 0)%float = false) as Hnz.
  { revert Hlong. unfold default_length_cutoff.
    rewrite FloatAxioms.leb_spec, FloatAxioms.eqb_spec.
    change (Prim2SF 10) with (S754_finite false 5629499534213120 (-49)).
    change (Prim2SF 0) with (S754_zero false).
    destruct (Prim2SF (length line)) as [s | s | | s m e]; try discriminate;
      destruct s; try discriminate; reflexivity. }
  unfold float_truediv. rewrite Hnz. simpl. eauto.
Qed.

End ArrowHeads.


(** The line (0,0)-(30,40) has length 50: its head starts at (30,40); with
    the textbook formulas the other two vertices are (28,29) and (20,35), 5
    to each side of the point (24,32), which lies 10 back from the end. *)
Lemma make_arrow_head_long_witness :
  let line := QLineF.of_coords 0 0 30 40 in
  (default_length_cutoff <=? length (LineGeometry := textbook) line)%float = true
  /\ make_arrow_head (H := textbook) line default_length_cutoff
     = Ok (Some [QPointF.make 30 40; QPointF.make 28 29; QPointF.make 20 35])
  /\ exists v w,
       make_arrow_head (H := textbook) line default_length_cutoff
       = Ok (Some [QLineF.p2 line; v; w]).
Proof.
  split; [reflexivity |]. split; [vm_compute; reflexivity |].
  exact (make_arrow_head_long (H := textbook) (QLineF.of_coords 0 0 30 40)
           eq_refl).
Defined.

(** * The three outcomes of an arrow head *)

Section ArrowHeadCases.
Context `{LineGeometry}.


End ArrowHeadCases.



(** * Integer rectangles and points *)

Section IntegerGeometry.

(** The four numbers of [rect_to_tuple] determine the rectangle:
    [QRect(left, top, width, height)] builds it again, and two rectangles
    with the same four numbers are the same rectangle. *)
Theorem rect_to_tuple_round_trip (r : QRect.t) :
  (exists l t w h, rect_to_tuple r = [l; t; w; h] /\ QRect.make l t w h = r)
  /\ forall r', rect_to_tuple r' = rect_to_tuple r -> r' = r.
Proof.
  destruct r as [x1 y1 x2 y2]. split.
  - eexists _, _, _, _. split; [reflexivity |].
    unfold QRect.make, QRect.left, QRect.top, QRect.width, QRect.height. simpl.
    f_equal; lia.
  - intros [x1' y1' x2' y2'].
    unfold rect_to_tuple, QRect.left, QRect.top, QRect.width, QRect.height.
    simpl. intros E. injection E as -> -> Hw Hh. f_equal; lia.
Qed.

(** The squared separation of two integer points does not depend on their
    order, is never negative, is zero exactly when the points coincide, and
    does not change when both points are moved by the same offset. *)
Theorem qpoint_sepertation_squared_metric (a b : QPoint.t) :
  qpoint_sepertation_squared a b = qpoint_sepertation_squared b a
  /\ 0 <= qpoint_sepertation_squared a b
  /\ (qpoint_sepertation_squared a b = 0 <-> a = b)
  /\ forall t, qpoint_sepertation_squared (QPoint.add a t) (QPoint.add b t)
               = qpoint_sepertation_squared a b.
Proof.
  destruct a as [ax ay], b as [bx by_].
  unfold qpoint_sepertation_squared, QPoint.sub, QPoint.add. simpl.
  pose proof (Z.square_nonneg (ax - bx)) as Hx.
  pose proof (Z.square_nonneg (ay - by_)) as Hy.
  split_and!.
  - ring.
  - lia.
  - split.
    + intros E.
      assert ((ax - bx) * (ax - bx) = 0) as Ex by lia.
      assert ((ay - by_) * (ay - by_) = 0) as Ey by lia.
      apply Z.mul_eq_0 in Ex, Ey. f_equal; lia.
    + intros E. injection E as -> ->. ring.
  - intros [tx ty]. simpl. ring.
Qed.

End IntegerGeometry.

(** * Sums of squares *)

Section FloatSignFacts.

(** A rounding told to give a positive sign gives no negative float. *)
Lemma binary_round_aux_unsigned (m e : Z) (l : location) :
  Float.unsigned (binary_round_aux prec emax false m e l) = true.
Proof.
  unfold binary_round_aux.
  destruct (shr_fexp prec emax m e l) as [mrs' e'].
  destruct (shr_fexp prec emax _ e' loc_Exact) as [mrs'' e''].
  destruct (shr_m mrs''); try reflexivity.
  destruct (e'' <=? emax - prec); reflexivity.
Qed.

Lemma mul_self_unsigned (u : float) : Float.unsigned (Prim2SF (u * u)) = true.
Proof.
  rewrite FloatAxioms.mul_spec. unfold SF64mul.
  destruct (Prim2SF u) as [s | s | | s m e]; simpl; try reflexivity;
    try (destruct s; reflexivity).
  replace (xorb s s) with false by (destruct s; reflexivity).
  apply binary_round_aux_unsigned.
Qed.

(** A square is a NaN only when its root is. *)
Lemma mul_self_nan (u : float) : is_nan (u * u) = is_nan u.
Proof.
  rewrite !float_is_nan_spec, FloatAxioms.mul_spec. unfold SF64mul.
  destruct (Prim2SF u) as [s | s | | s m e]; simpl; try reflexivity.
  destruct (binary_round_aux _ _ _ _ _ _) eqn:E; try reflexivity.
  apply binary_round_aux_not_nan in E; [contradiction | lia].
Qed.

(** The sum of two floats that are not negative is not negative, and is a
    NaN only when one of them is. *)
Lemma add_unsigned (u v : float) :
  Float.unsigned (Prim2SF u) = true -> Float.unsigned (Prim2SF v) = true ->
  Float.unsigned (Prim2SF (u + v)) = true
  /\ is_nan (u + v) = is_nan u || is_nan v.
Proof.
  rewrite !float_is_nan_spec, FloatAxioms.add_spec. unfold SF64add.
  destruct (Prim2SF u) as [s | s | | s m e], (Prim2SF v) as [s' | s' | | s' m' e'];
    simpl; try (destruct s; try discriminate); try (destruct s'; try discriminate);
    intros _ _; try (split; reflexivity).
  set (ez := Z.min e e').
  destruct (shl_align m e ez) as [m1 e1], (shl_align m' e' ez) as [m2 e2].
  simpl. unfold binary_round. destruct (shl_align (m1 + m2) ez _) as [mz ez'].
  split; [apply binary_round_aux_unsigned |].
  destruct (binary_round_aux _ _ _ _ _ _) eqn:E; try reflexivity.
  apply binary_round_aux_not_nan in E; [contradiction | lia].
Qed.

Lemma sqrt_unsigned (u : float) :
  Float.unsigned (Prim2SF u) = true -> Float.unsigned (Prim2SF (sqrt u)) = true.
Proof.
  rewrite FloatAxioms.sqrt_spec. unfold SF64sqrt, SFsqrt.
  destruct (Prim2SF u) as [s | s | | s m e]; simpl;
    try (destruct s; try discriminate); intros _; try reflexivity.
  destruct (SFsqrt_core_binary _ _ _ _) as [[mz ez] lz].
  apply binary_round_aux_unsigned.
Qed.

(** A float that is not negative is not below zero, and is at least zero
    unless it is a NaN. *)
Lemma unsigned_not_negative (u : float) :
  Float.unsigned (Prim2SF u) = true ->
  (u <? 0)%float = false /\ (is_nan u = false -> (0 <=? u)%float = true).
Proof.
  rewrite float_is_nan_spec, FloatAxioms.ltb_spec, FloatAxioms.leb_spec.
  change (Prim2SF 0) with (S754_zero false).
  destruct (Prim2SF u) as [s | s | | s m e]; simpl;
    try (destruct s; try discriminate); intros _; split; try reflexivity;
    discriminate.
Qed.

Lemma mul_opp_opp (u : float) : (- u * - u = u * u)%float.
Proof.
  apply Prim2SF_inj. rewrite !FloatAxioms.mul_spec, FloatAxioms.opp_spec.
  unfold SF64mul.
  destruct (Prim2SF u) as [s | s | | s m e]; simpl; try reflexivity;
    destruct s; reflexivity.
Qed.

End FloatSignFacts.

Section Lengths.

(** The squared length of a point is never below zero; it is at least
    zero unless it is a NaN, which it is exactly when a coordinate is a NaN;
    and the point mirrored through the origin has the same squared length. *)
Theorem length_squared_not_negative (p : QPointF.t) :
  (length_squared p <? 0)%float = false
  /\ (is_nan (length_squared p) = false -> (0 <=? length_squared p)%float = true)
  /\ is_nan (length_squared p) = is_nan (QPointF.x p) || is_nan (QPointF.y p)
  /\ length_squared (QPointF.make (- QPointF.x p) (- QPointF.y p))
     = length_squared p.
Proof.
  unfold length_squared.
  destruct (add_unsigned _ _ (mul_self_unsigned (QPointF.x p))
              (mul_self_unsigned (QPointF.y p))) as [Hs Hn].
  destruct (unsigned_not_negative _ Hs) as [H1 H2].
  split_and!; try assumption.
  - now rewrite Hn, !mul_self_nan.
  - simpl. now rewrite !mul_opp_opp.
Qed.

Context {QPen : Type} `{LineGeometry} `{LineUnit}.

(** [perpendicular_dist_to_position] always returns: the argument of its
    square root is a sum of two squares, never negative, so [math.sqrt]
    raises no domain error, whatever Qt's line routines compute; and the
    distance returned is never below zero. *)
Theorem perpendicular_dist_not_negative (gline : @QGraphicsLineItem QPen)
    (scale : float) :
  exists d,
    perpendicular_dist_to_position gline scale = Ok d
    /\ (d <? 0)%float = false
    /\ (is_nan d = false -> (0 <=? d)%float = true).
Proof.
  unfold perpendicular_dist_to_position, math_sqrt.
  set (del_x := (_ * _ * scale)%float). set (del_y := (_ * _ * scale)%float).
  destruct (add_unsigned _ _ (mul_self_unsigned del_x) (mul_self_unsigned del_y))
    as [Hs _].
  destruct (unsigned_not_negative _ Hs) as [-> _].
  eexists. split; [reflexivity |].
  apply unsigned_not_negative, sqrt_unsigned, Hs.
Qed.

End Lengths.

(** * Lines without a direction *)

Section NullFloats.
Import Float.

Lemma alike_refl (f : spec_float) : alike f f = true.
Proof.
  unfold alike. destruct f as [s | s | | s m e]; try reflexivity.
  - destruct s; reflexivity.
  - now rewrite SFcompare_refl.
Qed.

Lemma alike_sym (f g : spec_float) : alike f g = alike g f.
Proof.
  unfold alike. rewrite (SFcompare_antisym g f).
  destruct (SFcompare g f) as [[| |] |]; reflexivity.
Qed.

(** Floats that are alike: one is a NaN, or they are the same float, or
    they are two zeros. *)
Lemma alike_cases (f g : spec_float) :
  alike f g = true ->
  f = S754_nan \/ g = S754_nan \/ f = g
  \/ exists s s', f = S754_zero s /\ g = S754_zero s'.
Proof.
  unfold alike.
  destruct f as [s | s | | s m e], g as [s' | s' | | s' m' e']; simpl; auto.
  - intros _. right. right. right. eauto.
  - destruct s'; discriminate.
  - destruct s'; discriminate.
  - destruct s; discriminate.
  - destruct s, s'; simpl; try discriminate; auto.
  - destruct s; discriminate.
  - destruct s; discriminate.
  - destruct s'; discriminate.
  - change (Pos.compare_cont Eq m m') with (Pos.compare m m').
    destruct s, s'; simpl; try discriminate;
      destruct (Z.compare_spec e e') as [He | He | He]; try discriminate;
      destruct (Pos.compare_spec m m') as [Hm | Hm | Hm]; simpl;
      try discriminate; subst; auto.
Qed.

Lemma eqb_alike (u v : float) :
  (u =? v)%float = true -> alike (Prim2SF u) (Prim2SF v) = true.
Proof.
  rewrite FloatAxioms.eqb_spec. unfold SFeqb, alike.
  destruct (SFcompare _ _) as [[| |] |]; congruence.
Qed.

(** The difference of two floats that are alike is a zero or a NaN. *)
Lemma sub_alike_null (u v : float) :
  alike (Prim2SF u) (Prim2SF v) = true -> null (Prim2SF (u - v)) = true.
Proof.
  intros Ha. rewrite FloatAxioms.sub_spec. unfold SF64sub.
  destruct (alike_cases _ _ Ha) as [-> | [-> | [-> | (s & s' & -> & ->)]]].
  - reflexivity.
  - destruct (Prim2SF u); reflexivity.
  - destruct (Prim2SF v) as [s | s | | s m e]; try (destruct s; reflexivity);
      try reflexivity.
    unfold SFsub. now rewrite Z.sub_diag.
  - destruct s, s'; reflexivity.
Qed.

(** Adding a zero or a NaN gives a float alike the other term. *)
Lemma add_null_alike (u z : float) :
  null (Prim2SF z) = true -> alike (Prim2SF (u + z)) (Prim2SF u) = true.
Proof.
  rewrite FloatAxioms.add_spec. unfold SF64add.
  destruct (Prim2SF z) as [s | s | | s m e]; try discriminate; intros _.
  - destruct (Prim2SF u) as [s' | s' | | s' m' e'] eqn:Hu; simpl;
      try apply alike_refl. destruct s', s; reflexivity.
  - destruct (Prim2SF u); reflexivity.
Qed.

(** Adding the same float to floats that are alike gives floats that are
    alike. *)
Lemma add_alike (u v w : float) :
  alike (Prim2SF u) (Prim2SF v) = true ->
  alike (Prim2SF (u + w)) (Prim2SF (v + w)) = true.
Proof.
  intros Ha. rewrite !FloatAxioms.add_spec. unfold SF64add.
  destruct (alike_cases _ _ Ha) as [-> | [-> | [-> | (s & s' & -> & ->)]]].
  - reflexivity.
  - unfold alike. destruct (SFadd _ _ (Prim2SF u) _); reflexivity.
  - apply alike_refl.
  - destruct (Prim2SF w) as [s'' | s'' | | s'' m e]; simpl;
      try apply alike_refl. destruct s, s', s''; reflexivity.
Qed.

Lemma opp_null (z : float) :
  null (Prim2SF z) = true -> null (Prim2SF (- z)) = true.
Proof.
  rewrite FloatAxioms.opp_spec. destruct (Prim2SF z); simpl; congruence.
Qed.

Lemma mul_null_l (z b : float) :
  null (Prim2SF z) = true -> null (Prim2SF (z * b)) = true.
Proof.
  rewrite FloatAxioms.mul_spec. unfold SF64mul.
  destruct (Prim2SF z); try discriminate; destruct (Prim2SF b); reflexivity.
Qed.

Lemma mul_null_r (a z : float) :
  null (Prim2SF z) = true -> null (Prim2SF (a * z)) = true.
Proof.
  rewrite FloatAxioms.mul_spec. unfold SF64mul.
  destruct (Prim2SF z); try discriminate; destruct (Prim2SF a); reflexivity.
Qed.

Lemma sub_null (y z : float) :
  null (Prim2SF y) = true -> null (Prim2SF z) = true ->
  null (Prim2SF (y - z)) = true.
Proof.
  rewrite FloatAxioms.sub_spec. unfold SF64sub.
  destruct (Prim2SF y) as [s | | |]; try discriminate;
    destruct (Prim2SF z) as [s' | | |]; try discriminate; try reflexivity.
  destruct s, s'; reflexivity.
Qed.

Lemma null_zero_or_not_finite (z : float) :
  null (Prim2SF z) = true -> (z =? 0)%float || negb (isfinite z) = true.
Proof.
  unfold isfinite. rewrite float_is_finite_spec, FloatAxioms.eqb_spec.
  change (Prim2SF 0) with (S754_zero false).
  destruct (Prim2SF z) as [s | | |]; try discriminate; reflexivity.
Qed.

End NullFloats.

Section DegenerateLines.
Import Intersection.

(** When the vector of either line is null the pair counts as parallel. *)
Lemma null_vector_parallel (N C : QLineF.t) :
  (Float.null (Prim2SF (QPointF.x (a N))) = true
   /\ Float.null (Prim2SF (QPointF.y (a N))) = true)
  \/ (Float.null (Prim2SF (QPointF.x (b C))) = true
      /\ Float.null (Prim2SF (QPointF.y (b C))) = true) ->
  parallel N C = true.
Proof.
  intros Hn. unfold parallel. apply null_zero_or_not_finite.
  unfold denominator. fold (b C).
  destruct Hn as [[Hx Hy] | [Hx Hy]]; apply sub_null;
    auto using mul_null_l, mul_null_r.
Qed.

(** A line whose two ends hold equal coordinates has no direction: with
    such a normal, or such a clone, [cgt_intersection] raises the error it
    raises for parallel lines. *)
Theorem cgt_intersection_degenerate (N C : QLineF.t) :
  ((QLineF.x1 N =? QLineF.x2 N)%float = true
   /\ (QLineF.y1 N =? QLineF.y2 N)%float = true)
  \/ ((QLineF.x1 C =? QLineF.x2 C)%float = true
      /\ (QLineF.y1 C =? QLineF.y2 C)%float = true) ->
  cgt_intersection N C = Raise ParallelLinesError.
Proof.
  intros Hd. apply cgt_intersection_parallel, null_vector_parallel.
  destruct Hd as [[Hx Hy] | [Hx Hy]]; [left | right]; split;
    apply sub_alike_null; try (now apply eqb_alike);
    rewrite alike_sym; now apply eqb_alike.
Qed.

Section Arrows.
Context `{LineCentre}.

(** [make_arrow] on a parent line whose two ends hold equal coordinates
    raises the error of parallel lines, whatever the clone and wherever Qt
    puts the centre: the normal of such a line has no direction.  The
    normal is computed by Qt's formula, the start and the start plus
    [(dy, -dx)].  A clone whose two ends hold equal coordinates gives the
    same error, whatever Qt's line routines compute. *)
Theorem make_arrow_degenerate (line clone : QLineF.t) :
  ((QLineF.x1 line =? QLineF.x2 line)%float = true ->
   (QLineF.y1 line =? QLineF.y2 line)%float = true ->
   make_arrow (H := textbook) line clone = Raise ParallelLinesError)
  /\ (forall geometry : LineGeometry,
        (QLineF.x1 clone =? QLineF.x2 clone)%float = true ->
        (QLineF.y1 clone =? QLineF.y2 clone)%float = true ->
        make_arrow (H := geometry) line clone = Raise ParallelLinesError).
Proof.
  split.
  - intros Hx Hy. unfold make_arrow.
    rewrite cgt_intersection_parallel; [reflexivity |].
    apply null_vector_parallel. left. unfold a. simpl.
    apply eqb_alike in Hx, Hy. rewrite alike_sym in Hx, Hy.
    split; apply sub_alike_null, add_alike, add_null_alike.
    + now apply sub_alike_null.
    + now apply opp_null, sub_alike_null.
  - intros geometry Hx Hy. unfold make_arrow.
    rewrite cgt_intersection_parallel; [reflexivity |].
    apply null_vector_parallel. right. unfold b.
    split; apply sub_alike_null; now apply eqb_alike.
Qed.

Context `{LineGeometry}.

(** [make_arrow] fails exactly when [cgt_intersection] finds the centred
    normal parallel to the clone, and with that error; otherwise it returns
    the arrow from the centre of the parent line to the intersection point,
    together with the extension of [cgt_intersection]: when there is one it
    runs from an end of the clone to the tip of the arrow. *)
Theorem make_arrow_joins (line clone : QLineF.t) :
  let normal := normalVector line in
  let offset := QPointF.sub (center line) (QLineF.p1 line) in
  let centred_normal :=
    QLineF.make (QPointF.add (QLineF.p1 normal) offset)
                (QPointF.add (QLineF.p2 normal) offset) in
  if parallel centred_normal clone
  then make_arrow line clone = Raise ParallelLinesError
  else
    exists tip extension,
      make_arrow line clone = Ok (QLineF.make (center line) tip, extension)
      /\ tip = point centred_normal clone
      /\ match extension with
         | Some reach =>
             QLineF.p2 reach = tip
             /\ (QLineF.p1 reach = QLineF.p1 clone
                 \/ QLineF.p1 reach = QLineF.p2 clone)
         | None =>
             (nb centred_normal clone <? 0)%float = false
             /\ (1 <? nb centred_normal clone)%float = false
         end.
Proof.
  cbv zeta. unfold make_arrow.
  set (centred_normal := QLineF.make _ _).
  destruct (parallel centred_normal clone) eqn:Hp.
  - now rewrite (cgt_intersection_parallel _ _ Hp).
  - rewrite (cgt_intersection_not_parallel _ _ Hp). simpl.
    eexists _, _. split; [reflexivity |]. split; [reflexivity |].
    destruct (nb centred_normal clone <? 0)%float; [simpl; auto |].
    destruct (1 <? nb centred_normal clone)%float; simpl; auto.
Qed.

End Arrows.

End DegenerateLines.

(** The normal (2,3)-(2,3) has no direction. *)
Lemma cgt_intersection_degenerate_witness :
  cgt_intersection (QLineF.of_coords 2 3 2 3) (QLineF.of_coords 0 0 1 1)
  = Raise Intersection.ParallelLinesError.
Proof.
  exact (cgt_intersection_degenerate
           (QLineF.of_coords 2 3 2 3) (QLineF.of_coords 0 0 1 1)
           (or_introl (conj eq_refl eq_refl))).
Defined.

(** A parent line from (2,3) to (2,3), and a clone from (1,1) to (1,1). *)
Lemma make_arrow_degenerate_witness :
  make_arrow (H := textbook) (H0 := midpoint)
    (QLineF.of_coords 2 3 2 3) (QLineF.of_coords 0 0 1 1)
  = Raise Intersection.ParallelLinesError
  /\ make_arrow (H := textbook) (H0 := midpoint)
       (QLineF.of_coords 0 0 4 0) (QLineF.of_coords 1 1 1 1)
     = Raise Intersection.ParallelLinesError.
Proof.
  split.
  - exact (proj1 (make_arrow_degenerate (H := midpoint)
                    (QLineF.of_coords 2 3 2 3) (QLineF.of_coords 0 0 1 1))
             eq_refl eq_refl).
  - exact (proj2 (make_arrow_degenerate (H := midpoint)
                    (QLineF.of_coords 0 0 4 0) (QLineF.of_coords 1 1 1 1))
             textbook eq_refl eq_refl).
Defined.

(** The parent line (0,0)-(4,0) and the clone (0,3)-(1,3): the arrow runs
    from the centre (2,0) to (2,3), and the clone is extended from its second
    end to the tip. *)
Lemma make_arrow_joins_witness :
  let line := QLineF.of_coords 0 0 4 0 in
  let clone := QLineF.of_coords 0 3 1 3 in
  make_arrow (H := textbook) (H0 := midpoint) line clone
  = Ok (QLineF.of_coords 2 0 2 3, Some (QLineF.of_coords 1 3 2 3))
  /\ exists tip extension,
       make_arrow (H := textbook) (H0 := midpoint) line clone
       = Ok (QLineF.make (center (LineCentre := midpoint) line) tip, extension)
       /\ tip = QPointF.make 2 3
       /\ match extension with
          | Some reach =>
              QLineF.p2 reach = tip
              /\ (QLineF.p1 reach = QLineF.p1 clone
                  \/ QLineF.p1 reach = QLineF.p2 clone)
          | None => False
          end.
Proof.
  split; [reflexivity |].
  pose proof (make_arrow_joins (H := midpoint) (H0 := textbook)
                (QLineF.of_coords 0 0 4 0) (QLineF.of_coords 0 3 1 3)) as J.
  vm_compute in J. destruct J as (tip & extension & E & Ht & Hreach).
  exists tip, extension. split; [exact E |]. split; [exact Ht |].
  destruct extension as [reach |]; [exact Hreach |].
  destruct Hreach as [_ Hnb]. discriminate Hnb.
Defined.

(** * Records that are too short, and fields that are not read *)

Section Records.
Context {QPen : Type} `{Parsers}.

Ltac next_field :=
  match goal with
  | |- context [float_ ?f] => destruct (float_ f); cbn [Py.bind]
  | |- context [int_ ?f] => destruct (int_ f); cbn [Py.bind]
  end.

(** A list of fewer than seven fields never gives a point item, and one
    of fewer than nine never gives a line item: the conversion raises.  When
    the list is the start of a valid record, the error is [IndexError], at
    the first field that is missing. *)
Theorem short_record_raises (fields : list object) (pen : QPen) :
  ((List.length fields < 7)%nat ->
   exists e, list_to_g_point fields pen = Raise e)
  /\ ((List.length fields < 9)%nat ->
   exists e, list_to_g_line fields pen = Raise e)
  /\ (forall n, valid_point_fields fields -> (n < 7)%nat ->
      list_to_g_point (take n fields) pen = Raise IndexError)
  /\ (forall n, valid_line_fields fields -> (n < 9)%nat ->
      list_to_g_line (take n fields) pen = Raise IndexError).
Proof.
  split_and!.
  - intros Hl. unfold list_to_g_point.
    do 7 (destruct fields as [| ? fields];
          [cbn [getitem nth_error Py.bind]; repeat next_field; eauto |]).
    simpl in Hl. lia.
  - intros Hl. unfold list_to_g_line.
    do 9 (destruct fields as [| ? fields];
          [cbn [getitem nth_error Py.bind]; repeat next_field; eauto |]).
    simpl in Hl. lia.
  - intros n Hv Hn. destruct fields as [| id F]; [contradiction |].
    repeat (destruct F as [| [] F]; simpl in Hv; try contradiction).
    do 7 (destruct n as [| n]; [reflexivity |]). lia.
  - intros n Hv Hn. destruct fields as [| id F]; [contradiction |].
    repeat (destruct F as [| [] F]; simpl in Hv; try contradiction).
    do 9 (destruct n as [| n]; [reflexivity |]). lia.
Qed.

(** The conversions read the fields 1 to 6 of a point and 1 to 8 of a
    line only: two lists that differ in their identifier (field 0) and in
    what follows the last field read give the same outcome, item or error. *)
Theorem record_identifier_ignored (id id' : object)
    (fields rest rest' : list object) (pen : QPen) :
  (List.length fields = 6%nat ->
   list_to_g_point (id :: fields ++ rest) pen
   = list_to_g_point (id' :: fields ++ rest') pen)
  /\ (List.length fields = 8%nat ->
   list_to_g_line (id :: fields ++ rest) pen
   = list_to_g_line (id' :: fields ++ rest') pen).
Proof.
  split; intros Hl.
  - do 6 (destruct fields as [| ? fields]; [discriminate |]).
    destruct fields; [reflexivity | discriminate].
  - do 8 (destruct fields as [| ? fields]; [discriminate |]).
    destruct fields; [reflexivity | discriminate].
Qed.

End Records.

(** * Velocities of a list in two parts *)

Section MoreVelocities.
Variables (scale : float) (fps : Z).

(** The loop started with some velocities returns them followed by what
    it returns when started with none. *)
Lemma velocities_loop_from (diff_list : list (Z * ImageLineDifference))
    (velocities : list float) :
  velocities_loop diff_list scale fps velocities
  = do vs <- velocities_loop diff_list scale fps [];
    Ok (velocities ++ vs).
Proof.
  revert velocities. induction diff_list as [| [frames diff] rest IH];
    intros velocities.
  - simpl. now rewrite app_nil_r.
  - rewrite !velocities_loop_cons.
    destruct (int_truediv frames fps) as [time |]; [| reflexivity].
    cbn [Py.bind].
    destruct (float_truediv _ time) as [velocity |]; [| reflexivity].
    cbn [Py.bind].
    rewrite (IH (velocities ++ _)), (IH ([] ++ _)).
    destruct (velocities_loop rest scale fps []) as [vs |]; [| reflexivity].
    cbn [Py.bind]. now rewrite <- app_assoc.
Qed.

(** Every entry is converted on its own: the velocities of a list in two
    parts are those of the first part followed by those of the second, and
    the call fails with the error of the first part that fails. *)
Theorem velocities_of_concatenation
    (first second : list (Z * ImageLineDifference)) :
  difference_list_to_velocities (first ++ second) scale fps
  = do v1 <- difference_list_to_velocities first scale fps;
    do v2 <- difference_list_to_velocities second scale fps;
    Ok (v1 ++ v2).
Proof.
  unfold difference_list_to_velocities.
  induction first as [| [frames diff] rest IH].
  - simpl. destruct (velocities_loop second scale fps []); reflexivity.
  - rewrite <- app_comm_cons, !velocities_loop_cons.
    destruct (int_truediv frames fps) as [time |]; [| reflexivity].
    cbn [Py.bind].
    destruct (float_truediv _ time) as [velocity |]; [| reflexivity].
    cbn [Py.bind].
    rewrite (velocities_loop_from (rest ++ second)), (velocities_loop_from rest).
    rewrite IH.
    destruct (velocities_loop rest scale fps []) as [v1 |]; [| reflexivity].
    cbn [Py.bind].
    destruct (velocities_loop second scale fps []) as [v2 |]; [| reflexivity].
    cbn [Py.bind]. now rewrite app_assoc.
Qed.

End MoreVelocities.

(** * How much a rectangle grows when its sides are made even *)

Section EvenRectangles.
Context {QPen : Type}.

(** For an item whose rectangle has its four edges within 2^29 of zero
    and whose position rounds to an integer point within 2^29 of zero,
    [get_rect_even_dimensions] returns a rectangle both without and with even
    sides enforced: the two have the same top left corner, the second is at
    most one pixel wider and one pixel higher, and they are the very same
    rectangle exactly when both sides were even already. *)
Theorem get_rect_even_dimensions_tight (rect_item : @QGraphicsRectItem QPen)
    (p : QPoint.t) :
  Pixels.edges_within (rect rect_item) ->
  toPoint (pos (rect_base rect_item)) = Some p ->
  Pixels.point_within p ->
  exists plain even,
    get_rect_even_dimensions rect_item false = Some plain
    /\ get_rect_even_dimensions rect_item true = Some even
    /\ Pixels.fits plain
    /\ QRect.left even = QRect.left plain
    /\ QRect.top even = QRect.top plain
    /\ QRect.width plain <= QRect.width even <= QRect.width plain + 1
    /\ QRect.height plain <= QRect.height even <= QRect.height plain + 1
    /\ (even = plain <->
        QRect.width plain mod 2 = 0 /\ QRect.height plain mod 2 = 0).
Proof.
  intros Hf Hp Hw.
  destruct (toAlignedRect_edges_within _ Hf)
    as (left & top & right & bottom & _ & _ & _ & _ & Ha & Hb).
  destruct (aligned_fits _ _ _ _ p Hb Hw) as [_ Fm].
  unfold get_rect_even_dimensions. rewrite Ha, Hp. simpl.
  set (moved := QRect.translate _ p) in *.
  eexists _, _. split; [reflexivity |]. split; [reflexivity |].
  split; [exact Fm |]. clear Fm.
  destruct moved as [x1 y1 x2 y2].
  unfold QRect.setHeight, QRect.setWidth, QRect.width, QRect.height,
    QRect.left, QRect.top. simpl.
  pose proof (Z.mod_pos_bound (x2 - x1 + 1) 2 ltac:(lia)) as Bw.
  pose proof (Z.mod_pos_bound (y2 - y1 + 1) 2 ltac:(lia)) as Bh.
  destruct (Z.eqb_spec ((x2 - x1 + 1) mod 2) 1) as [Hw' | Hw'],
    (Z.eqb_spec ((y2 - y1 + 1) mod 2) 1) as [Hh | Hh]; simpl;
    (split; [reflexivity |]); (split; [reflexivity |]);
    (split; [lia |]); (split; [lia |]);
    (split; [intros E; try (injection E; intros); lia | intros [? ?]; try lia]).
  reflexivity.
Qed.

End EvenRectangles.

(** An item at (10, 0.5) with the rectangle (0.5, -0.5, 2, 3.25): 3 by 4
    pixels as it is, 4 by 4 with even sides. *)
Lemma get_rect_even_dimensions_tight_witness :
  let item : @QGraphicsRectItem unit :=
    RectItem (QGraphicsItem.make (QPointF.make 10 0.5) ∅ 0)
             (QRectF.make 0.5 (-0.5) 2 3.25) None in
  let p := QPoint.make 10 1 in
  Pixels.edges_within (rect item)
  /\ toPoint (pos (rect_base item)) = Some p
  /\ Pixels.point_within p
  /\ get_rect_even_dimensions item false = Some (QRect.make 10 0 3 4)
  /\ get_rect_even_dimensions item true = Some (QRect.make 10 0 4 4)
  /\ exists plain even,
       get_rect_even_dimensions item false = Some plain
       /\ get_rect_even_dimensions item true = Some even
       /\ Pixels.fits plain
       /\ QRect.left even = QRect.left plain
       /\ QRect.top even = QRect.top plain
       /\ QRect.width plain <= QRect.width even <= QRect.width plain + 1
       /\ QRect.height plain <= QRect.height even <= QRect.height plain + 1
       /\ (even = plain <->
           QRect.width plain mod 2 = 0 /\ QRect.height plain mod 2 = 0).
Proof.
  assert (Pixels.edges_within (QRectF.make 0.5 (-0.5) 2 3.25)) as Hf.
  { repeat split; eexists; (split; [vm_compute; reflexivity |]);
      split; vm_compute; discriminate. }
  assert (Pixels.point_within (QPoint.make 10 1)) as Hw
    by (split; vm_compute; discriminate).
  split; [exact Hf |]. split; [reflexivity |]. split; [exact Hw |].
  split; [reflexivity |]. split; [reflexivity |].
  exact (get_rect_even_dimensions_tight
           (RectItem (QGraphicsItem.make (QPointF.make 10 0.5) ∅ 0)
                     (QRectF.make 0.5 (-0.5) 2 3.25) None)
           (QPoint.make 10 1) Hf eq_refl Hw).
Defined.

(** * The project as a store of values *)

Ltac listed :=
  repeat first [apply list_elem_of_here | apply list_elem_of_further].

Section ProjectStore.
Context {Results : Type} `{Parsers}.
Variable results_has_been_changed : Results -> bool.
Variable results_reset_changed : Results -> Results.

#[local] Abbreviation project := (@CGTProject Results).
#[local] Abbreviation history := (run results_reset_changed).

Lemma setitem_lookup (self : project) (item key : string) (v : value) :
  items (__setitem__ self item v) !! key
  = if bool_decide (key = item) then Some v else items self !! key.
Proof.
  unfold __setitem__. simpl. case_bool_decide as Hk.
  - subst. apply lookup_insert_eq.
  - apply lookup_insert_ne. congruence.
Qed.

(** A call leaves the keys it does not write as they are. *)
Lemma step_frame (self : project) (c : call) (key : string) :
  writes c key = false ->
  items (step results_reset_changed self c) !! key = items self !! key.
Proof.
  destruct c as [item v | env | | | | f]; unfold step, writes; intros Hw.
  - now rewrite setitem_lookup, Hw.
  - unfold init_new_project. rewrite !setitem_lookup.
    apply bool_decide_eq_false in Hw.
    repeat (case_bool_decide as Hk;
            [subst; exfalso; apply Hw; listed |]; clear Hk).
    reflexivity.
  - apply bool_decide_eq_false in Hw. unfold ensure_numeric.
    destruct (do v <- __getitem__ self "resolution"; value_float v)
      as [resolution |]; [| reflexivity].
    destruct (do v <- __getitem__ _ "frame_rate"; value_float v)
      as [frame_rate |]; cbn [fst]; rewrite !setitem_lookup;
      repeat (case_bool_decide as Hk;
              [subst; exfalso; apply Hw; listed |]; clear Hk);
      reflexivity.
  - reflexivity.
  - apply bool_decide_eq_false in Hw. unfold reset_changed, __getitem__. simpl.
    destruct (items self !! "results") as [[| | | | r] |]; simpl;
      try reflexivity.
    apply lookup_insert_ne. congruence.
  - apply bool_decide_eq_false in Hw.
    destruct (items self !! "results") as [[| | | | r] |]; simpl;
      try reflexivity.
    apply lookup_insert_ne. congruence.
Qed.

(** No call removes a key. *)
Lemma step_keeps_keys (self : project) (c : call) (key : string) :
  is_Some (items self !! key) ->
  is_Some (items (step results_reset_changed self c) !! key).
Proof.
  intros Hk. destruct (writes c key) eqn:Hw.
  - destruct c as [item v | env | | | | f]; unfold step, writes in *.
    + rewrite setitem_lookup, Hw. eauto.
    + unfold init_new_project. rewrite !setitem_lookup.
      repeat case_bool_decide; eauto.
    + unfold ensure_numeric.
      destruct (do v <- __getitem__ self "resolution"; value_float v)
        as [resolution |]; [| exact Hk].
      destruct (do v <- __getitem__ _ "frame_rate"; value_float v)
        as [frame_rate |]; cbn [fst]; rewrite !setitem_lookup;
        repeat case_bool_decide; eauto.
    + discriminate.
    + apply bool_decide_eq_true in Hw as ->.
      destruct Hk as [v Hv]. unfold reset_changed, __getitem__. simpl.
      rewrite Hv. destruct v; simpl; rewrite ?Hv, ?lookup_insert_eq; eauto.
    + apply bool_decide_eq_true in Hw as ->.
      destruct Hk as [v Hv]. rewrite Hv.
      destruct v; simpl; rewrite ?Hv, ?lookup_insert_eq; eauto.
  - now rewrite step_frame.
Qed.

Lemma run_snoc (calls : list call) (c : call) :
  history (calls ++ [c]) = step results_reset_changed (history calls) c.
Proof. unfold run. now rewrite fold_left_app. Qed.

(** Calls that do not write a key leave its value as it is. *)
Lemma run_frame (self : project) (later : list call) (key : string) :
  forallb (fun c => negb (writes c key)) later = true ->
  items (fold_left (step results_reset_changed) later self) !! key
  = items self !! key.
Proof.
  revert self. induction later as [| c later IH]; intros self Hl; [reflexivity |].
  simpl in *. apply andb_true_iff in Hl as [Hc Hl].
  rewrite IH by exact Hl. apply step_frame. now apply negb_true_iff.
Qed.

(** A new project holds exactly the 24 keys of [default_keys], and no
    call removes a key: after any history of calls, reading one of these
    keys returns a value, never [KeyError]. *)
Theorem default_keys_stay (calls : list call) (key : string) :
  (is_Some (items (@__init__ Results) !! key) <-> key ∈ default_keys)
  /\ (key ∈ default_keys ->
      exists v, __getitem__ (history calls) key = Ok v).
Proof.
  assert (is_Some (items (@__init__ Results) !! key) <-> key ∈ default_keys)
    as Hinit.
  { split.
    - unfold __init__.
      repeat (rewrite setitem_lookup; case_bool_decide as Hk;
              [subst; intros _; unfold default_keys; listed |]; clear Hk).
      simpl. rewrite lookup_empty. intros [? ?]. discriminate.
    - unfold default_keys. intros Hin.
      repeat (apply elem_of_cons in Hin as [-> | Hin]; [vm_compute; eauto |]).
      now apply elem_of_nil in Hin. }
  split; [exact Hinit |].
  intros Hin. apply Hinit in Hin.
  assert (is_Some (items (history calls) !! key)) as [v Hv].
  { induction calls as [| c calls IH] using rev_ind; [exact Hin |].
    rewrite run_snoc. now apply step_keeps_keys. }
  exists v. unfold __getitem__. now rewrite Hv.
Qed.

(** A value stored under a key is the value read under that key, until a
    call that writes the key: after [self[item] = v] and any later calls
    none of which writes [item], [self[item]] returns [v]. *)
Theorem stored_value_stays (calls later : list call) (item : string) (v : value) :
  forallb (fun c => negb (writes c item)) later = true ->
  __getitem__ (history (calls ++ SetItem item v :: later)) item = Ok v.
Proof.
  intros Hl. unfold run, __getitem__. rewrite fold_left_app. simpl.
  rewrite run_frame by exact Hl. rewrite setitem_lookup.
  now rewrite bool_decide_eq_true_2.
Qed.

(** Storing a value again leaves the project as it is. *)
Lemma setitem_again (self : project) (item : string) (v : value) :
  items self !! item = Some v -> _changed self = true ->
  __setitem__ self item v = self.
Proof.
  intros Hv Hc. destruct self as [m c]. unfold __setitem__. simpl in *.
  rewrite insert_id by exact Hv. now rewrite Hc.
Qed.

(** On a project in which no resolution was ever stored, the resolution
    is still the [None] of [__init__]: [ensure_numeric] raises [TypeError]
    and leaves the project as it was. *)
Theorem ensure_numeric_unset (calls : list call) :
  forallb (fun c => negb (writes c "resolution")) calls = true ->
  ensure_numeric (history calls) = (history calls, Raise TypeError).
Proof.
  intros Hc. unfold ensure_numeric, __getitem__, run.
  rewrite run_frame by exact Hc. reflexivity.
Qed.

(** [ensure_numeric] is not all or nothing: when the resolution converts
    and the frame rate does not, the call raises the error of the frame
    rate, with the resolution already replaced by its float, the frame rate
    as it was, and the project marked as changed. *)
Theorem ensure_numeric_half_done (self : project) (resolution : float) (e : exn) :
  (do v <- __getitem__ self "resolution"; value_float v) = Ok resolution ->
  (do v <- __getitem__ self "frame_rate"; value_float v) = Raise e ->
  let left := fst (ensure_numeric self) in
  snd (ensure_numeric self) = Raise e
  /\ __getitem__ left "resolution" = Ok (VFloat resolution)
  /\ __getitem__ left "frame_rate" = __getitem__ self "frame_rate"
  /\ _changed left = true.
Proof.
  intros Hr Hf. cbv zeta. unfold ensure_numeric. rewrite Hr.
  assert (__getitem__ (__setitem__ self "resolution" (VFloat resolution))
            "frame_rate"
          = __getitem__ self "frame_rate") as Hsame.
  { unfold __getitem__. now rewrite setitem_lookup. }
  rewrite Hsame, Hf. cbn [fst snd]. split; [reflexivity |].
  split; [| split; [exact Hsame | reflexivity]].
  unfold __getitem__. now rewrite setitem_lookup.
Qed.

(** Once [ensure_numeric] has succeeded, the resolution and the frame
    rate are floats, the project is marked as changed, and calling
    [ensure_numeric] again succeeds and changes nothing. *)
Theorem ensure_numeric_idempotent (self done : project) :
  ensure_numeric self = (done, Ok tt) ->
  ensure_numeric done = (done, Ok tt)
  /\ (exists resolution frame_rate,
        __getitem__ done "resolution" = Ok (VFloat resolution)
        /\ __getitem__ done "frame_rate" = Ok (VFloat frame_rate))
  /\ _changed done = true.
Proof.
  unfold ensure_numeric at 1.
  destruct (do v <- __getitem__ self "resolution"; value_float v)
    as [resolution |]; [| discriminate].
  destruct (do v <- __getitem__ _ "frame_rate"; value_float v)
    as [frame_rate |]; [| discriminate].
  intros [= <-].
  set (half := __setitem__ self "resolution" (VFloat resolution)).
  set (done := __setitem__ half "frame_rate" (VFloat frame_rate)).
  assert (items done !! "resolution" = Some (VFloat resolution)) as Hr.
  { unfold done, half. now rewrite !setitem_lookup. }
  assert (items done !! "frame_rate" = Some (VFloat frame_rate)) as Hf.
  { unfold done. now rewrite setitem_lookup. }
  split; [| split; [| reflexivity]].
  - unfold ensure_numeric, __getitem__. rewrite Hr. cbn [Py.bind value_float].
    rewrite (setitem_again done "resolution") by (exact Hr || reflexivity).
    rewrite Hf. cbn [Py.bind value_float].
    now rewrite (setitem_again done "frame_rate") by (exact Hf || reflexivity).
  - exists resolution, frame_rate. unfold __getitem__. now rewrite Hr, Hf.
Qed.

End ProjectStore.

(** Notes stored in a project survive the calls that fill in a new
    project, convert its numbers and reset its flag. *)
Lemma stored_value_stays_witness :
  let env := {| timestamp := "now"; hostname := "host"; ip := "0.0.0.0";
                system := "os"; user := "me" |} in
  __getitem__ (Results := unit)
    (run (H := no_text) (fun r => r)
       ([SetChanged] ++ SetItem "notes" (VStr "a note")
          :: [InitNewProject env; EnsureNumeric; ResetChanged]))
    "notes"
  = Ok (VStr "a note").
Proof.
  exact (stored_value_stays (H := no_text) (fun r : unit => r)
           [SetChanged]
           [InitNewProject {| timestamp := "now"; hostname := "host";
                              ip := "0.0.0.0"; system := "os"; user := "me" |};
            EnsureNumeric; ResetChanged]
           "notes" (VStr "a note") eq_refl).
Defined.

(** A project whose notes and frame rate were stored, but no resolution. *)
Lemma ensure_numeric_unset_witness :
  let calls : list (@call unit) :=
    [SetItem "notes" (VStr "a note"); SetItem "frame_rate" (VFloat 8);
     ResetChanged] in
  ensure_numeric (H := no_text) (run (H := no_text) (fun r => r) calls)
  = (run (H := no_text) (fun r => r) calls, Raise TypeError).
Proof.
  exact (ensure_numeric_unset (H := no_text) (fun r : unit => r)
           [SetItem "notes" (VStr "a note"); SetItem "frame_rate" (VFloat 8);
            ResetChanged]
           eq_refl).
Defined.

(** A project loaded with the resolution as text and no frame rate. *)
Lemma ensure_numeric_half_done_witness :
  let self : @CGTProject unit :=
    run (H := two_words) (fun r => r)
      [SetItem "resolution" (VStr "1.5"); ResetChanged] in
  _changed self = false
  /\ snd (ensure_numeric (H := two_words) self) = Raise TypeError
  /\ __getitem__ (fst (ensure_numeric (H := two_words) self)) "resolution"
     = Ok (VFloat 1.5)
  /\ __getitem__ (fst (ensure_numeric (H := two_words) self)) "frame_rate"
     = __getitem__ self "frame_rate"
  /\ _changed (fst (ensure_numeric (H := two_words) self)) = true.
Proof.
  split; [reflexivity |].
  exact (ensure_numeric_half_done (H := two_words)
           (run (H := two_words) (fun r : unit => r)
              [SetItem "resolution" (VStr "1.5"); ResetChanged])
           1.5 TypeError eq_refl eq_refl).
Defined.

(** A project loaded with the resolution as text and the frame rate as a
    float. *)
Lemma ensure_numeric_idempotent_witness :
  let self : @CGTProject unit :=
    run (H := two_words) (fun r => r)
      [SetItem "resolution" (VStr "1.5"); SetItem "frame_rate" (VFloat 8)] in
  let done := fst (ensure_numeric (H := two_words) self) in
  ensure_numeric (H := two_words) self = (done, Ok tt)
  /\ ensure_numeric (H := two_words) done = (done, Ok tt)
  /\ (exists resolution frame_rate,
        __getitem__ done "resolution" = Ok (VFloat resolution)
        /\ __getitem__ done "frame_rate" = Ok (VFloat frame_rate))
  /\ _changed done = true.
Proof.
  split; [reflexivity |].
  exact (ensure_numeric_idempotent (H := two_words)
           (run (H := two_words) (fun r : unit => r)
              [SetItem "resolution" (VStr "1.5"); SetItem "frame_rate" (VFloat 8)])
           (fst (ensure_numeric (H := two_words)
                   (run (H := two_words) (fun r : unit => r)
                      [SetItem "resolution" (VStr "1.5");
                       SetItem "frame_rate" (VFloat 8)])))
           eq_refl).
Defined.

(** * The list of regions of the widget *)

Section WidgetFacts.
Import regionslinesframeswidget.
Context {DataSource Result Line : Type}.
Variable get_result : DataSource -> option Result.
Variable number_of_regions : Result -> Z.
Variable get_lines : Result -> Z -> list Line.

#[local] Abbreviation widget := (@RegionsLinesFramesWidget DataSource).
#[local] Abbreviation display :=
  (display_data get_result number_of_regions get_lines).
#[local] Abbreviation set_source :=
  (set_data_source get_result number_of_regions get_lines).
#[local] Abbreviation text := (region_text get_lines).

(** The loop adds the text of each index, in order, after the texts
    already in the list. *)
Lemma display_loop_texts (result : Result) (indices : list Z) (self : widget) :
  display_loop get_lines result indices self
  = Widget (_data_source self)
           (_regionsList self ++ map (text result) indices)
           (_linesList self) (_framesList self).
Proof.
  revert self. induction indices as [| i rest IH]; intros self.
  - simpl. rewrite app_nil_r. now destruct self.
  - simpl. rewrite IH. unfold regionsList_addItem. simpl.
    rewrite <- app_assoc. simpl. do 3 f_equal.
    unfold region_text. destruct (get_lines result i) as [| l lines];
      reflexivity.
Qed.

Lemma range_length (n : Z) : List.length (range n) = Z.to_nat n.
Proof. unfold range. apply length_seqZ. Qed.

(** [display_data] raises [AttributeError] on a widget without a data
    source and does nothing when the source has no result; otherwise it
    keeps the texts already listed and adds, after them, one text for each
    region from 0 up to the number of regions, in order: ["region i no
    lines"] or ["region i n lines"].  The other two lists are not touched. *)
Theorem display_data_appends (self : widget) :
  match _data_source self with
  | None => display self = (self, Raise AttributeError)
  | Some source =>
      match get_result source with
      | None => display self = (self, Ok tt)
      | Some result =>
          let texts := map (text result) (range (number_of_regions result)) in
          display self
          = (Widget (_data_source self) (_regionsList self ++ texts)
                    (_linesList self) (_framesList self), Ok tt)
          /\ List.length texts = Z.to_nat (number_of_regions result)
          /\ forall i : nat,
               Z.of_nat i < number_of_regions result ->
               texts !! i = Some (text result (Z.of_nat i))
      end
  end.
Proof.
  unfold display_data.
  destruct (_data_source self) as [source |] eqn:Hs; [| reflexivity].
  destruct (get_result source) as [result |]; [| reflexivity].
  cbv zeta. rewrite display_loop_texts, Hs.
  split; [reflexivity |]. split.
  - now rewrite length_map, range_length.
  - intros i Hi. rewrite list_lookup_fmap. unfold range.
    now rewrite lookup_seqZ_lt.
Qed.

Lemma set_data_source_texts (self : widget) (source : DataSource)
    (result : Result) :
  get_result source = Some result ->
  set_source self (Some source)
  = (Widget (Some source)
            (_regionsList self
             ++ map (text result) (range (number_of_regions result)))
            (_linesList self) (_framesList self), Ok tt).
Proof.
  intros Hr. unfold set_data_source, display_data. cbn [_data_source].
  rewrite Hr, display_loop_texts. reflexivity.
Qed.

(** [set_data_source] never clears the list: setting the same source a
    second time lists every region twice.  After [clear] the list holds the
    texts of the regions once. *)
Theorem set_data_source_repeats (self : widget) (source : DataSource)
    (result : Result) :
  get_result source = Some result ->
  let texts := map (text result) (range (number_of_regions result)) in
  let once := fst (set_source self (Some source)) in
  let twice := fst (set_source once (Some source)) in
  let fresh := fst (set_source (clear once) (Some source)) in
  _regionsList once = _regionsList self ++ texts
  /\ _regionsList twice = _regionsList self ++ texts ++ texts
  /\ _regionsList fresh = texts.
Proof.
  intros Hr. cbv zeta.
  repeat (rewrite (set_data_source_texts _ source result Hr);
          cbn [fst _regionsList]).
  unfold clear. cbn [_regionsList].
  split; [reflexivity |]. split; [now rewrite app_assoc | reflexivity].
Qed.

End WidgetFacts.

(** A source of two regions, the first without lines and the second with
    two, set on a widget that already lists one text. *)
Lemma set_data_source_repeats_witness :
  let get_result := fun _ : unit => Some tt in
  let number_of_regions := fun _ : unit => 2 in
  let get_lines :=
    fun (_ : unit) (i : Z) => if (i =? 0)%Z then [] else [tt; tt] in
  let set_source :=
    regionslinesframeswidget.set_data_source
      get_result number_of_regions get_lines in
  let shown := regionslinesframeswidget.Widget None ["old"] [] [] in
  let once := fst (set_source shown (Some tt)) in
  regionslinesframeswidget._regionsList once
    = ["old"; "region 0 no lines"; "region 1 2 lines"]
  /\ regionslinesframeswidget._regionsList (fst (set_source once (Some tt)))
     = ["old"; "region 0 no lines"; "region 1 2 lines";
        "region 0 no lines"; "region 1 2 lines"]
  /\ regionslinesframeswidget._regionsList
       (fst (set_source (regionslinesframeswidget.clear once) (Some tt)))
     = ["region 0 no lines"; "region 1 2 lines"].
Proof.
  exact (set_data_source_repeats
           (fun _ : unit => Some tt) (fun _ : unit => 2)
           (fun (_ : unit) (i : Z) => if (i =? 0)%Z then [] else [tt; tt])
           (regionslinesframeswidget.Widget None ["old"] [] []) tt tt eq_refl).
Defined.

(** * The texts of the regions differ *)

Section Texts.
Import regionslinesframeswidget.

(** Numbers are written without spaces. *)
Lemma pretty_N_go_spaceless (x : N) (s : string) :
  spaceless s = true -> spaceless (pretty_N_go x s) = true.
Proof.
  revert s. induction (N.lt_wf_0 x) as [x _ IH]. intros s Hs.
  destruct (N.eq_dec x 0%N) as [-> | Hx].
  - now rewrite pretty_N_go_0.
  - rewrite pretty_N_go_step by lia. apply IH.
    + apply N.div_lt; lia.
    + simpl. rewrite Hs, andb_true_r.
      unfold pretty_N_char. repeat case_match; reflexivity.
Qed.

Lemma format_int_spaceless (n : Z) : spaceless (format_int n) = true.
Proof.
  unfold format_int, pretty, pretty_Z.
  destruct n as [| p | p]; [reflexivity | |];
    unfold pretty, pretty_positive, pretty, pretty_N;
    (destruct (decide (N.pos p = 0%N)); [discriminate |]).
  - now apply pretty_N_go_spaceless.
  - simpl. now apply pretty_N_go_spaceless.
Qed.

(** Two texts that agree, each a word followed by a space, start with
    the same word. *)
Lemma spaceless_prefix (s1 s2 t1 t2 : string) :
  spaceless s1 = true -> spaceless s2 = true ->
  s1 +:+ String " "%char t1 = s2 +:+ String " "%char t2 -> s1 = s2.
Proof.
  revert s2. induction s1 as [| c s1 IH]; intros [| c' s2] H1 H2 E;
    simpl in *.
  - reflexivity.
  - injection E as <- _. discriminate H2.
  - injection E as -> _. discriminate H1.
  - injection E as -> E. f_equal.
    apply andb_true_iff in H1 as [_ H1], H2 as [_ H2]. now apply IH.
Qed.

Context {Result Line : Type}.
Variable get_lines : Result -> Z -> list Line.

(** The text of a region tells the region: two regions are listed under
    the same text only when they are the same region, whatever lines they
    hold; so the texts [display_data] adds for one result are pairwise
    different. *)
Theorem region_texts_differ (result : Result) (n : Z) :
  (forall i j,
     region_text get_lines result i = region_text get_lines result j -> i = j)
  /\ NoDup (map (region_text get_lines result) (range n)).
Proof.
  assert (forall i j,
            region_text get_lines result i = region_text get_lines result j ->
            i = j) as Hinj.
  { unfold region_text. intros i j E. apply (inj pretty).
    apply (spaceless_prefix (format_int i) (format_int j)
             (match get_lines result i with
              | [] => "no lines"
              | lines => format_int (Z.of_nat (List.length lines)) +:+ " lines"
              end)
             (match get_lines result j with
              | [] => "no lines"
              | lines => format_int (Z.of_nat (List.length lines)) +:+ " lines"
              end));
      try apply format_int_spaceless.
    destruct (get_lines result i), (get_lines result j); simpl in E |- *;
      injection E as E; exact E. }
  split; [exact Hinj |].
  apply (NoDup_fmap_2 (region_text get_lines result) (Inj0 := Hinj)).
  apply NoDup_seqZ.
Qed.

End Texts.

(** * Floats that hold half-integers exactly

    Integers in the range of Qt's [int], their halves, and the sums and
    differences [qRound] forms from them are all floats: no operation on
    them rounds. *)

Section ExactHalves.

(** Shifting out zeros loses nothing. *)
Lemma shr_1_even (m : Z) :
  0 <= m ->
  shr_1 (Build_shr_record (2 * m) false false) = Build_shr_record m false false.
Proof. destruct m as [| p | p]; [reflexivity | reflexivity | lia]. Qed.

Lemma pow2_xI (n : positive) : 2 ^ Zpos n~1 = 2 * (2 ^ Zpos n * 2 ^ Zpos n).
Proof.
  replace (Zpos n~1) with (1 + Zpos n + Zpos n) by lia.
  rewrite !Z.pow_add_r by lia. change (2 ^ 1) with 2. ring.
Qed.

Lemma pow2_xO (n : positive) : 2 ^ Zpos n~0 = 2 ^ Zpos n * 2 ^ Zpos n.
Proof.
  replace (Zpos n~0) with (Zpos n + Zpos n) by lia.
  now rewrite Z.pow_add_r by lia.
Qed.

Lemma iter_shr_1_exact (n : positive) (m : Z) :
  0 <= m ->
  SpecFloat.iter_pos shr_1 n (Build_shr_record (m * 2 ^ Zpos n) false false)
  = Build_shr_record m false false.
Proof.
  revert m. induction n as [n IH | n IH |]; intros m Hm.
  - assert (0 < 2 ^ Zpos n) as HP by (apply Z.pow_pos_nonneg; lia).
    rewrite pow2_xI. cbn [SpecFloat.iter_pos].
    replace (m * (2 * (2 ^ Zpos n * 2 ^ Zpos n)))
      with (2 * ((m * 2 ^ Zpos n) * 2 ^ Zpos n)) by ring.
    rewrite shr_1_even by nia.
    rewrite IH by nia. now apply IH.
  - assert (0 < 2 ^ Zpos n) as HP by (apply Z.pow_pos_nonneg; lia).
    rewrite pow2_xO. cbn [SpecFloat.iter_pos].
    replace (m * (2 ^ Zpos n * 2 ^ Zpos n))
      with ((m * 2 ^ Zpos n) * 2 ^ Zpos n) by ring.
    rewrite IH by nia. now apply IH.
  - cbn [SpecFloat.iter_pos]. replace (m * 2 ^ 1) with (2 * m) by (change (2 ^ 1) with 2; ring).
    now apply shr_1_even.
Qed.

Lemma shr_exact (m e n : Z) :
  0 <= m -> 0 <= n ->
  shr (shr_record_of_loc (m * 2 ^ n) loc_Exact) e n
  = (shr_record_of_loc m loc_Exact, e + n).
Proof.
  intros Hm Hn. destruct n as [| p | p]; [| | lia].
  - simpl. now rewrite Z.mul_1_r, Z.add_0_r.
  - unfold shr, shr_record_of_loc. now rewrite iter_shr_1_exact.
Qed.

Lemma digits2_pos_shift (p q : positive) (j : Z) :
  Zpos q = Zpos p * 2 ^ j -> 0 <= j ->
  Zpos (digits2_pos q) = Zpos (digits2_pos p) + j.
Proof.
  intros Hq Hj. apply digits2_pos_unique.
  pose proof (digits2_pos_bounds p) as [Lo Hi].
  assert (0 < 2 ^ j) as HP by (apply Z.pow_pos_nonneg; lia).
  replace (Zpos (digits2_pos p) + j - 1) with ((Zpos (digits2_pos p) - 1) + j) by lia.
  rewrite !Z.pow_add_r by lia. rewrite Hq. nia.
Qed.

(** Rounding a mantissa of 53 bits followed by zeros changes nothing. *)
Lemma binary_round_aux_exact (s : bool) (m n e : Z) :
  Float.two52 <= m < Float.two53 -> 0 <= n -> -1074 <= e + n <= 971 ->
  binary_round_aux prec emax s (m * 2 ^ n) e loc_Exact
  = S754_finite s (Z.to_pos m) (e + n).
Proof.
  intros Hm Hn He. unfold binary_round_aux.
  assert (0 < 2 ^ n) as HP by (apply Z.pow_pos_nonneg; lia).
  destruct m as [| p | p]; try (unfold Float.two52 in Hm; lia).
  assert (Zpos (digits2_pos p) = 53) as Hd.
  { apply digits2_pos_unique. change (2 ^ (53 - 1)) with Float.two52.
    change (2 ^ 53) with Float.two53. lia. }
  destruct (Zpos p * 2 ^ n) as [| q | q] eqn:Hq; try lia.
  assert (Zpos (digits2_pos q) = 53 + n) as HD.
  { rewrite (digits2_pos_shift p q n) by (lia || congruence). lia. }
  unfold shr_fexp at 1. simpl Zdigits2. rewrite HD.
  replace (fexp prec emax (53 + n + e) - e) with n
    by (unfold fexp, SpecFloat.emin, prec, emax; lia).
  rewrite <- Hq, shr_exact by lia.
  cbn [shr_m shr_record_of_loc loc_of_shr_record round_nearest_even].
  destruct (shr_fexp_normal (Zpos p) (e + n) loc_Exact) as (mrs & -> & _ & Hsame);
    [unfold Float.two52, Float.two53, Float.two54 in *; lia | lia |].
  rewrite Hsame by lia.
  replace (Zpos p <? Float.two53) with true by (symmetry; apply Z.ltb_lt; lia).
  cbn [shr_m shr_record_of_loc].
  replace (e + n <=? emax - prec) with true
    by (symmetry; apply Z.leb_le; unfold emax, prec; lia).
  reflexivity.
Qed.

(** The digits of an integer below 2^53, and its mantissa shifted to 53
    bits. *)
Lemma digits2_pos_small (p : positive) :
  Zpos p < Float.two53 ->
  1 <= Zpos (digits2_pos p) <= 53
  /\ Float.two52 <= Zpos p * 2 ^ (53 - Zpos (digits2_pos p)) < Float.two53.
Proof.
  intros Hp. pose proof (digits2_pos_bounds p) as [Lo Hi].
  set (d := Zpos (digits2_pos p)) in *.
  assert (1 <= d <= 53) as Hd.
  { split; [unfold d; lia |].
    assert (2 ^ (d - 1) < 2 ^ 53) as H by (change (2 ^ 53) with Float.two53; lia).
    apply Z.pow_lt_mono_r_iff in H; lia. }
  split; [exact Hd |].
  assert (0 < 2 ^ (53 - d)) as HP by (apply Z.pow_pos_nonneg; lia).
  assert (2 ^ (d - 1) * 2 ^ (53 - d) = Float.two52) as E1.
  { rewrite <- Z.pow_add_r by lia. replace (d - 1 + (53 - d)) with 52 by lia.
    reflexivity. }
  assert (2 ^ d * 2 ^ (53 - d) = Float.two53) as E2.
  { rewrite <- Z.pow_add_r by lia. replace (d + (53 - d)) with 53 by lia.
    reflexivity. }
  nia.
Qed.

(** Rounding an integer of at most 53 bits, followed by zeros, gives that
    integer with its mantissa shifted to 53 bits. *)
Lemma binary_round_exact (s : bool) (p q : positive) (j e : Z) :
  Zpos q = Zpos p * 2 ^ j -> 0 <= j -> Zpos p < Float.two53 ->
  -1074 <= Zpos (digits2_pos p) + j + e - 53 <= 971 ->
  binary_round prec emax s q e
  = S754_finite s (Z.to_pos (Zpos p * 2 ^ (53 - Zpos (digits2_pos p))))
                (Zpos (digits2_pos p) + j + e - 53).
Proof.
  intros Hq Hj Hp He.
  destruct (digits2_pos_small p Hp) as [Hd Hm].
  pose proof (digits2_pos_shift p q j Hq Hj) as HD.
  set (d := Zpos (digits2_pos p)) in *.
  set (m := Zpos p * 2 ^ (53 - d)) in *.
  unfold binary_round. rewrite HD.
  replace (fexp prec emax (d + j + e)) with (d + j + e - 53)
    by (unfold fexp, SpecFloat.emin, prec, emax; lia).
  unfold shl_align.
  destruct (d + j + e - 53 - e) as [| k | k] eqn:Hk.
  - replace (Zpos q) with (m * 2 ^ 0).
    + rewrite binary_round_aux_exact by lia. f_equal. lia.
    + unfold m. rewrite Hq, <- Z.mul_assoc, <- Z.pow_add_r by lia.
      do 2 f_equal. lia.
  - replace (Zpos q) with (m * 2 ^ Zpos k).
    + rewrite binary_round_aux_exact by lia. f_equal. lia.
    + unfold m. rewrite Hq, <- Z.mul_assoc, <- Z.pow_add_r by lia.
      do 2 f_equal. lia.
  - fold (shift_pos k q). rewrite shift_pos_correct, Z.pow_pos_fold.
    replace (2 ^ Zpos k * Zpos q) with (m * 2 ^ 0).
    + rewrite binary_round_aux_exact by lia. f_equal. lia.
    + unfold m. rewrite Hq. change (2 ^ 0) with 1. rewrite Z.mul_1_r.
      replace (53 - d) with (Zpos k + j) by lia.
      rewrite Z.pow_add_r by lia. ring.
Qed.

Lemma normalize_scaled (t j e : Z) :
  Z.abs t < Float.two53 -> 0 <= j ->
  -1074 <= Zdigits2 t + j + e - 53 <= 971 ->
  binary_normalize prec emax (t * 2 ^ j) e false = Float.scaled t (j + e).
Proof.
  intros Ht Hj He.
  assert (0 < 2 ^ j) as HP by (apply Z.pow_pos_nonneg; lia).
  destruct t as [| p | p]; [reflexivity | |].
  - destruct (Zpos p * 2 ^ j) as [| q | q] eqn:Hq; try lia.
    simpl binary_normalize. simpl in He.
    rewrite (binary_round_exact false p q j e) by (lia || congruence).
    unfold Float.scaled. simpl Zdigits2. f_equal. lia.
  - destruct (Zneg p * 2 ^ j) as [| q | q] eqn:Hq; try lia.
    simpl binary_normalize. simpl in He.
    rewrite (binary_round_exact true p q j e) by lia.
    unfold Float.scaled. simpl Zdigits2. f_equal. lia.
Qed.

Lemma normal_valid (s : bool) (m : positive) (e : Z) :
  Float.two52 <= Zpos m < Float.two53 -> -1074 <= e <= 971 ->
  valid_binary (S754_finite s m e) = true.
Proof.
  intros Hm He. unfold SpecFloat.valid_binary, bounded, canonical_mantissa.
  assert (Zpos (digits2_pos m) = 53) as ->
    by (apply digits2_pos_unique; change (2 ^ (53 - 1)) with Float.two52;
        change (2 ^ 53) with Float.two53; lia).
  replace (fexp prec emax (53 + e)) with e
    by (unfold fexp, SpecFloat.emin, prec, emax; lia).
  rewrite Z.eqb_refl. simpl. apply Z.leb_le. unfold emax, prec. lia.
Qed.

Lemma scaled_valid (t k : Z) :
  Z.abs t < Float.two53 -> -1074 <= Zdigits2 t + k - 53 <= 971 ->
  valid_binary (Float.scaled t k) = true.
Proof.
  intros Ht Hk. destruct t as [| p | p]; [reflexivity | |];
    destruct (digits2_pos_small p Ht) as [Hd Hm];
    unfold Float.scaled; apply normal_valid; try exact Hk;
    simpl Z.abs; simpl Zdigits2;
    rewrite Z2Pos.id by (unfold Float.two52 in Hm; lia); exact Hm.
Qed.

Lemma Zdigits2_small (t : Z) :
  Z.abs t < Float.two53 -> 0 <= Zdigits2 t <= 53.
Proof.
  destruct t as [| p | p]; simpl; intros Ht; [lia | |];
    destruct (digits2_pos_small p Ht); lia.
Qed.

(** The float nearest to an integer below 2^53 is that integer. *)
Lemma of_Z_scaled (n : Z) :
  Z.abs n < Float.two53 -> Prim2SF (Float.of_Z n) = Float.scaled n 0.
Proof.
  intros Hn. pose proof (Zdigits2_small n Hn) as Hd.
  unfold Float.of_Z, Float.Z2SF.
  replace n with (n * 2 ^ 0) at 1 by (change (2 ^ 0) with 1; lia).
  rewrite normalize_scaled by lia. simpl Z.add.
  apply Prim2SF_SF2Prim, scaled_valid; lia.
Qed.

Lemma scaled_double (t k : Z) :
  Z.abs t < Float.two52 -> Float.scaled (2 * t) k = Float.scaled t (k + 1).
Proof.
  intros Ht. destruct t as [| p | p]; [reflexivity | |];
    (assert (Zpos p < Float.two53) as Hp by (unfold Float.two52, Float.two53 in *; lia));
    destruct (digits2_pos_small p Hp) as [Hd _];
    (assert (Zpos (digits2_pos p) <= 52) as Hd'
      by (pose proof (digits2_pos_bounds p) as [Lo _];
          assert (2 ^ (Zpos (digits2_pos p) - 1) < 2 ^ 52) as H
            by (change (2 ^ 52) with Float.two52; lia);
          apply Z.pow_lt_mono_r_iff in H; lia)).
  - change (2 * Zpos p) with (Zpos p~0). unfold Float.scaled.
    cbn [Zdigits2 digits2_pos Z.abs]. rewrite Pos2Z.inj_succ.
    change (Zpos p~0 <? 0) with false. change (Zpos p <? 0) with false.
    f_equal; [| lia]. f_equal. rewrite Pos2Z.inj_xO.
    replace (53 - Zpos (digits2_pos p))
      with (1 + (53 - Z.succ (Zpos (digits2_pos p)))) by lia.
    rewrite Z.pow_add_r by lia. change (2 ^ 1) with 2.
    rewrite !Z.abs_eq by lia. ring.
  - change (2 * Zneg p) with (Zneg p~0). unfold Float.scaled.
    cbn [Zdigits2 digits2_pos Z.abs]. rewrite Pos2Z.inj_succ.
    change (Zneg p~0 <? 0) with true. change (Zneg p <? 0) with true.
    f_equal; [| lia]. f_equal. rewrite Pos2Z.inj_xO.
    replace (53 - Zpos (digits2_pos p))
      with (1 + (53 - Z.succ (Zpos (digits2_pos p)))) by lia.
    rewrite Z.pow_add_r by lia. change (2 ^ 1) with 2.
    rewrite !Z.abs_neq by lia. rewrite Pos2Z.opp_neg. lia.
Qed.

(** Halving a float far from the small end of the range only lowers the
    exponent. *)
Lemma scaled_finite (t k : Z) :
  t <> 0 -> Z.abs t < Float.two53 ->
  exists m,
    Float.scaled t k = S754_finite (t <? 0) m (Zdigits2 t + k - 53)
    /\ Float.two52 <= Zpos m < Float.two53
    /\ Zpos m = Z.abs t * 2 ^ (53 - Zdigits2 t).
Proof.
  intros Ht0 Ht.
  assert (Float.two52 <= Z.abs t * 2 ^ (53 - Zdigits2 t) < Float.two53) as Hm.
  { destruct t as [| p | p]; [contradiction | |];
      apply (digits2_pos_small p Ht). }
  exists (Z.to_pos (Z.abs t * 2 ^ (53 - Zdigits2 t))).
  rewrite Z2Pos.id by (unfold Float.two52 in Hm; lia).
  split; [| split; [exact Hm | reflexivity]].
  destruct t; [contradiction | reflexivity | reflexivity].
Qed.

(** Halving a normal float far from the small end of the range only
    lowers the exponent. *)
Lemma SFdiv_two_finite (s : bool) (m : positive) (e : Z) :
  Float.two52 <= Zpos m < Float.two53 -> -1072 <= e <= 971 ->
  SFdiv prec emax (S754_finite s m e) (S754_finite false 4503599627370496 (-51))
  = S754_finite s m (e - 1).
Proof.
  intros Hm He. unfold SFdiv, SFdiv_core_binary.
  assert (Zdigits2 (Zpos m) = 53) as ->
    by (apply digits2_pos_unique; change (2 ^ (53 - 1)) with Float.two52;
        change (2 ^ 53) with Float.two53; lia).
  change (Zdigits2 4503599627370496) with 53.
  replace (Z.min (fexp prec emax (53 + e - (53 + -51))) (e - -51)) with (e - 2)
    by (unfold fexp, SpecFloat.emin, prec, emax; lia).
  replace (e - -51 - (e - 2)) with 53 by lia.
  rewrite Z.shiftl_mul_pow2 by lia.
  replace (Zpos m * 2 ^ 53) with ((Zpos m * 2 ^ 1) * 4503599627370496)
    by (change (2 ^ 53) with 9007199254740992; change (2 ^ 1) with 2; lia).
  pose proof (Z_div_mod (Zpos m * 2 ^ 1 * 4503599627370496) 4503599627370496
                ltac:(lia)) as Hdiv.
  destruct (Z.div_eucl _ 4503599627370496) as [q r].
  destruct Hdiv as [Hq Hr].
  assert (q = Zpos m * 2 ^ 1 /\ r = 0) as [-> ->] by lia.
  change (new_location 4503599627370496 0) with loc_Exact.
  rewrite binary_round_aux_exact by (exact Hm || lia).
  cbn [Z.to_pos]. rewrite xorb_false_r. f_equal. lia.
Qed.

Lemma SFdiv_two (t k : Z) :
  Z.abs t < Float.two53 -> -1072 <= Zdigits2 t + k - 53 <= 971 ->
  SFdiv prec emax (Float.scaled t k) (Prim2SF 2) = Float.scaled t (k - 1).
Proof.
  intros Ht Hk. change (Prim2SF 2) with (S754_finite false 4503599627370496 (-51)).
  destruct (Z.eq_dec t 0) as [-> | Ht0]; [reflexivity |].
  destruct (scaled_finite t k Ht0 Ht) as (m & -> & Hm & Em).
  destruct (scaled_finite t (k - 1) Ht0 Ht) as (m' & -> & Hm' & Em').
  assert (m' = m) as -> by lia.
  rewrite SFdiv_two_finite by assumption. f_equal. lia.
Qed.

Lemma shl_align_fst (m : positive) (e ez : Z) :
  ez <= e -> Zpos (fst (shl_align m e ez)) = Zpos m * 2 ^ (e - ez).
Proof.
  intros He. unfold shl_align.
  destruct (ez - e) as [| k | k] eqn:Hk; try lia.
  - replace (e - ez) with 0 by lia. simpl. lia.
  - cbn [fst]. fold (shift_pos k m).
    rewrite shift_pos_correct, Z.pow_pos_fold.
    replace (e - ez) with (Zpos k) by lia. ring.
Qed.

(** The mantissa of a half-integer, with its sign, aligned to a smaller
    exponent. *)
Lemma aligned_half (a ez : Z) :
  a <> 0 -> Z.abs a < Float.two53 -> ez <= Zdigits2 a - 54 ->
  cond_Zopp (a <? 0)
    (Zpos (fst (shl_align (Z.to_pos (Z.abs a * 2 ^ (53 - Zdigits2 a)))
                  (Zdigits2 a + -1 - 53) ez)))
  = a * 2 ^ (-1 - ez).
Proof.
  intros Ha Hb He. rewrite shl_align_fst by lia.
  destruct a as [| p | p]; [contradiction | |];
    destruct (digits2_pos_small p Hb) as [Hd Hm];
    cbn [Zdigits2 Z.abs] in *;
    set (d := Zpos (digits2_pos p)) in *;
    rewrite Z2Pos.id by (unfold Float.two52 in Hm; lia);
    rewrite <- Z.mul_assoc, <- Z.pow_add_r by lia;
    replace (53 - d + (d + -1 - 53 - ez)) with (-1 - ez) by lia.
  - reflexivity.
  - change (Zneg p <? 0) with true. cbn [cond_Zopp].
    rewrite <- Pos2Z.opp_pos. lia.
Qed.

Lemma half_finite (a : Z) :
  a <> 0 ->
  Float.scaled a (-1)
  = S754_finite (a <? 0) (Z.to_pos (Z.abs a * 2 ^ (53 - Zdigits2 a)))
                (Zdigits2 a + -1 - 53).
Proof. destruct a; [contradiction | reflexivity | reflexivity]. Qed.

(** Sums and differences of half-integers are exact. *)
Lemma SFadd_halves (a b : Z) :
  Z.abs a < Float.two52 -> Z.abs b < Float.two52 ->
  SFadd prec emax (Float.scaled a (-1)) (Float.scaled b (-1)) = Float.scaled (a + b) (-1).
Proof.
  intros Ha Hb.
  destruct (Z.eq_dec a 0) as [-> | Ha0].
  { destruct b; reflexivity. }
  destruct (Z.eq_dec b 0) as [-> | Hb0].
  { rewrite Z.add_0_r. destruct a; reflexivity. }
  assert (Z.abs a < Float.two53 /\ Z.abs b < Float.two53
          /\ Z.abs (a + b) < Float.two53) as (Ha' & Hb' & Hab)
    by (unfold Float.two52, Float.two53 in *; lia).
  pose proof (Zdigits2_small a Ha') as Da.
  pose proof (Zdigits2_small b Hb') as Db.
  pose proof (Zdigits2_small (a + b) Hab) as Dab.
  rewrite (half_finite a Ha0), (half_finite b Hb0). unfold SFadd.
  set (ez := Z.min _ _).
  rewrite (aligned_half a ez), (aligned_half b ez) by (assumption || lia).
  rewrite <- Z.mul_add_distr_r.
  rewrite normalize_scaled by (assumption || lia).
  f_equal. lia.
Qed.

Lemma SFsub_halves (a b : Z) :
  Z.abs a < Float.two52 -> Z.abs b < Float.two52 ->
  SFsub prec emax (Float.scaled a (-1)) (Float.scaled b (-1)) = Float.scaled (a - b) (-1).
Proof.
  intros Ha Hb.
  destruct (Z.eq_dec b 0) as [-> | Hb0].
  { rewrite Z.sub_0_r. destruct a; reflexivity. }
  destruct (Z.eq_dec a 0) as [-> | Ha0].
  { destruct b as [| p | p]; [contradiction | reflexivity | reflexivity]. }
  assert (Z.abs a < Float.two53 /\ Z.abs b < Float.two53
          /\ Z.abs (a - b) < Float.two53) as (Ha' & Hb' & Hab)
    by (unfold Float.two52, Float.two53 in *; lia).
  pose proof (Zdigits2_small a Ha') as Da.
  pose proof (Zdigits2_small b Hb') as Db.
  pose proof (Zdigits2_small (a - b) Hab) as Dab.
  rewrite (half_finite a Ha0), (half_finite b Hb0). unfold SFsub.
  set (ez := Z.min _ _).
  rewrite (aligned_half a ez), (aligned_half b ez) by (assumption || lia).
  rewrite <- Z.mul_sub_distr_r.
  rewrite normalize_scaled by (assumption || lia).
  f_equal. lia.
Qed.

(** The value of a half-integer. *)
Lemma SF2Q_half (t : Z) :
  Z.abs t < Float.two53 ->
  exists q, Float.SF2Q (Float.scaled t (-1)) = Some q /\ (q == t # 2)%Q.
Proof.
  intros Ht. destruct (Z.eq_dec t 0) as [-> | Ht0].
  { exists 0%Q. split; reflexivity. }
  destruct (scaled_finite t (-1) Ht0 Ht) as (m & -> & Hm & Em).
  pose proof (Zdigits2_small t Ht) as Hd.
  eexists. split; [reflexivity |].
  set (n := 54 - Zdigits2 t).
  replace (Zdigits2 t + -1 - 53) with (- n) by (unfold n; lia).
  assert (cond_Zopp (t <? 0) (Zpos m) = t * 2 ^ (n - 1)) as ->.
  { rewrite Em. replace (53 - Zdigits2 t) with (n - 1) by (unfold n; lia).
    destruct t as [| p | p]; [contradiction | reflexivity |].
    change (Zneg p <? 0) with true. cbn [cond_Zopp Z.abs].
    rewrite <- Pos2Z.opp_pos. lia. }
  rewrite Qpower_opp, <- (Zpower_Qpower 2 n) by (unfold n; lia).
  replace (2 ^ n) with (2 * 2 ^ (n - 1))
    by (rewrite <- Z.pow_succ_r by (unfold n; lia); f_equal; lia).
  assert (0 < 2 ^ (n - 1)) as HP by (apply Z.pow_pos_nonneg; unfold n; lia).
  destruct (2 ^ (n - 1)) as [| P | P]; try lia.
  unfold Qeq, Qmult, Qinv, inject_Z. simpl. lia.
Qed.

Lemma trunc_half (x : float) (t : Z) :
  Z.abs t < Float.two53 -> Prim2SF x = Float.scaled t (-1) ->
  Float.trunc x = Some (Z.quot t 2).
Proof.
  intros Ht Hx. unfold Float.trunc, Float.value. rewrite Hx.
  destruct (SF2Q_half t Ht) as (q & -> & Hq). simpl. f_equal.
  destruct (Qle_bool 0 q) eqn:Hs.
  - apply Qle_bool_iff in Hs. rewrite Hq in Hs.
    rewrite (Qfloor_comp _ _ Hq). unfold Qle in Hs. simpl in Hs.
    simpl. rewrite Z.quot_div_nonneg by lia. reflexivity.
  - assert (~ (0 <= q)%Q) as Hn by (rewrite <- Qle_bool_iff; congruence).
    rewrite Hq in Hn. rewrite (Qceiling_comp _ _ Hq).
    unfold Qle in Hn. simpl in Hn. unfold Qceiling. simpl.
    replace t with (- - t) at 2 by lia.
    rewrite Z.quot_opp_l, Z.quot_div_nonneg by lia. reflexivity.
Qed.

Lemma leb_half (x : float) (t k : Z) :
  Prim2SF x = Float.scaled t k -> (0 <=? x)%float = (0 <=? t).
Proof.
  intros Hx. rewrite FloatAxioms.leb_spec, Hx.
  change (Prim2SF 0) with (S754_zero false).
  destruct t; reflexivity.
Qed.

(** [qRound] of a half-integer: halves go up. *)
Lemma qRound_half (x : float) (t : Z) :
  Z.abs t < Float.two52 / 4 -> Prim2SF x = Float.scaled t (-1) ->
  qRound x = Some ((t + 1) / 2).
Proof.
  intros Ht Hx. unfold qRound. rewrite (leb_half x t (-1) Hx).
  assert (Float.two52 / 4 = 1125899906842624) as E by reflexivity.
  rewrite E in Ht. clear E.
  destruct (Z.leb_spec 0 t) as [Hpos | Hneg].
  - rewrite (trunc_half _ (t + 1)).
    + rewrite Z.quot_div_nonneg by lia. reflexivity.
    + unfold Float.two53. lia.
    + rewrite FloatAxioms.add_spec, Hx.
      change (Prim2SF 0.5) with (Float.scaled 1 (-1)).
      apply SFadd_halves; unfold Float.two52; lia.
  - set (n := Z.quot (t - 2) 2).
    assert (Float.trunc (x - 1) = Some n) as ->.
    { apply trunc_half; [unfold Float.two53; lia |].
      rewrite FloatAxioms.sub_spec, Hx.
      change (Prim2SF 1) with (Float.scaled 2 (-1)).
      apply SFsub_halves; unfold Float.two52; lia. }
    assert (Z.abs n < 1125899906842624) as Hn.
    { unfold n. Z.to_euclidean_division_equations. lia. }
    simpl.
    assert (Prim2SF (x - Float.of_Z n + 0.5) = Float.scaled (t - 2 * n + 1) (-1)) as Hy.
    { rewrite FloatAxioms.add_spec, FloatAxioms.sub_spec, Hx.
      rewrite of_Z_scaled by (unfold Float.two53; lia).
      replace (Float.scaled n 0) with (Float.scaled (2 * n) (-1))
        by (apply scaled_double; unfold Float.two52; lia).
      unfold SF64sub. rewrite SFsub_halves by (unfold Float.two52; lia).
      change (Prim2SF 0.5) with (Float.scaled 1 (-1)).
      apply SFadd_halves; unfold Float.two52; lia. }
    assert (Z.abs (t - 2 * n + 1) < Float.two53) as Hb
      by (unfold Float.two53; lia).
    rewrite (trunc_half _ _ Hb Hy). simpl.
    f_equal. unfold n. Z.to_euclidean_division_equations. lia.
Qed.

End ExactHalves.

(** * The centre of an integer rectangle *)

Section Centres.

(** Dividing an integer point by two: each coordinate is halved, halves
    going up. *)
Lemma divide_point_by_two (p : QPoint.t) :
  int_range (QPoint.x p) -> int_range (QPoint.y p) ->
  divide_point p 2
  = Some (QPoint.make ((QPoint.x p + 1) / 2) ((QPoint.y p + 1) / 2)).
Proof.
  unfold int_range. intros Hx Hy.
  assert (forall n, -2147483648 <= n <= 2147483647 ->
            qRound (Float.of_Z n / 2) = Some ((n + 1) / 2)) as Hround.
  { intros n Hn. apply qRound_half.
    - change (Float.two52 / 4) with 1125899906842624. lia.
    - assert (Z.abs n < Float.two53) as Hb by (unfold Float.two53; lia).
      rewrite FloatAxioms.div_spec, of_Z_scaled by exact Hb.
      pose proof (Zdigits2_small n Hb).
      apply (SFdiv_two n 0); lia. }
  unfold divide_point. rewrite (Hround _ Hx), (Hround _ Hy). reflexivity.
Qed.

(** For a rectangle whose corner coordinates add up within the range of
    Qt's [int], [rectangle_properties] returns the four corner pixels and the
    centre: the mean of the top left and the bottom right corner, a half
    rounded up in each coordinate; the centre lies within the rectangle
    whenever the rectangle is not empty. *)
Theorem rectangle_properties_centre (rectangle : QRect.t) :
  int_range (QRect.x1 rectangle + QRect.x2 rectangle) ->
  int_range (QRect.y1 rectangle + QRect.y2 rectangle) ->
  exists ctr,
    rectangle_properties rectangle
    = Some (QPoint.make (QRect.x1 rectangle) (QRect.y1 rectangle),
            QPoint.make (QRect.x2 rectangle) (QRect.y1 rectangle),
            QPoint.make (QRect.x1 rectangle) (QRect.y2 rectangle),
            QPoint.make (QRect.x2 rectangle) (QRect.y2 rectangle),
            ctr)
    /\ QPoint.x ctr = (QRect.x1 rectangle + QRect.x2 rectangle + 1) / 2
    /\ QPoint.y ctr = (QRect.y1 rectangle + QRect.y2 rectangle + 1) / 2
    /\ (QRect.x1 rectangle <= QRect.x2 rectangle ->
        QRect.x1 rectangle <= QPoint.x ctr <= QRect.x2 rectangle)
    /\ (QRect.y1 rectangle <= QRect.y2 rectangle ->
        QRect.y1 rectangle <= QPoint.y ctr <= QRect.y2 rectangle).
Proof.
  intros Hx Hy. unfold rectangle_properties.
  rewrite divide_point_by_two by assumption.
  eexists. split; [reflexivity |]. simpl.
  split; [reflexivity |]. split; [reflexivity |].
  split; intros Hle; Z.to_euclidean_division_equations; lia.
Qed.

End Centres.

(** The rectangle of 4 by 3 pixels at (10, 20). *)
Lemma rectangle_properties_centre_witness :
  rectangle_properties (QRect.make 10 20 4 3)
  = Some (QPoint.make 10 20, QPoint.make 13 20, QPoint.make 10 22,
          QPoint.make 13 22, QPoint.make 12 21).
Proof.
  destruct (rectangle_properties_centre (QRect.make 10 20 4 3))
    as (ctr & -> & Ex & Ey & _); [unfold int_range; simpl; lia .. |].
  destruct ctr as [cx cy]. simpl in Ex, Ey. subst. reflexivity.
Defined.

(** * Rectangles on whole pixels *)

Section WholePixels.

(** A float that holds an integer is its own floor and ceiling, and
    [qRound] gives it back. *)
Lemma whole_float (x : float) (n : Z) :
  Z.abs n < Float.two52 / 8 -> Prim2SF x = Float.scaled (2 * n) (-1) ->
  qFloor x = Some n /\ qCeil x = Some n /\ qRound x = Some n.
Proof.
  change (Float.two52 / 8) with 562949953421312. intros Hn Hx.
  assert (Z.abs (2 * n) < Float.two53) as Hb by (unfold Float.two53; lia).
  destruct (SF2Q_half (2 * n) Hb) as (q & Hq & Eq).
  unfold qFloor, qCeil, Float.floor, Float.ceil, Float.value. rewrite Hx, Hq.
  simpl. rewrite (Qfloor_comp _ _ Eq), (Qceiling_comp _ _ Eq).
  unfold Qceiling. simpl.
  split; [| split].
  - f_equal. rewrite Z.mul_comm. apply Z.div_mul. lia.
  - f_equal. replace (- (2 * n)) with ((- n) * 2) by lia.
    rewrite Z.div_mul by lia. lia.
  - rewrite (qRound_half x (2 * n)) by
      (try exact Hx; change (Float.two52 / 4) with 1125899906842624; lia).
    f_equal. Z.to_euclidean_division_equations. lia.
Qed.

Lemma of_Z_whole (n : Z) :
  Z.abs n < Float.two52 -> Prim2SF (Float.of_Z n) = Float.scaled (2 * n) (-1).
Proof.
  intros Hn. rewrite of_Z_scaled by (unfold Float.two52, Float.two53 in *; lia).
  symmetry. now apply scaled_double.
Qed.

(** The sum of two floats that hold integers holds their sum. *)
Lemma add_whole (a b : Z) :
  Z.abs a < Float.two52 / 8 -> Z.abs b < Float.two52 / 8 ->
  Prim2SF (Float.of_Z a + Float.of_Z b) = Float.scaled (2 * (a + b)) (-1).
Proof.
  change (Float.two52 / 8) with 562949953421312. intros Ha Hb.
  rewrite FloatAxioms.add_spec, !of_Z_whole by (unfold Float.two52; lia).
  unfold SF64add. rewrite SFadd_halves by (unfold Float.two52; lia).
  f_equal. lia.
Qed.

Context {QPen : Type}.

(** For an item whose rectangle has integer edges and size and whose
    position is an integer point (all at most 2^29 in magnitude, so that
    every sum fits Qt's [int]), nothing is lost to rounding:
    [get_rect_even_dimensions] returns exactly that rectangle moved by the
    position, and with even sides enforced the same rectangle with each odd
    side one pixel longer. *)
Theorem get_rect_even_dimensions_whole (l t w h px py : Z)
    (data : gmap ItemDataTypes object) (z : float) (pen : option QPen) :
  Forall (fun n => Z.abs n <= 536870912) [l; t; w; h; px; py] ->
  let item :=
    RectItem
      (QGraphicsItem.make (QPointF.make (Float.of_Z px) (Float.of_Z py)) data z)
      (QRectF.make (Float.of_Z l) (Float.of_Z t) (Float.of_Z w) (Float.of_Z h))
      pen in
  get_rect_even_dimensions item false = Some (QRect.make (l + px) (t + py) w h)
  /\ get_rect_even_dimensions item true
     = Some (QRect.make (l + px) (t + py) (w + w mod 2) (h + h mod 2)).
Proof.
  intros Hr. cbv zeta.
  repeat match goal with
         | H : Forall _ (_ :: _) |- _ =>
             apply Forall_cons in H as [? H]
         end.
  assert (forall n, Z.abs n <= 536870912 -> Z.abs n < Float.two52 / 8)
    as Hsmall by (change (Float.two52 / 8) with 562949953421312; lia).
  assert (forall n, Z.abs n <= 536870912 -> Z.abs n < Float.two52)
    as Hsmall' by (unfold Float.two52; lia).
  assert (toAlignedRect
            (QRectF.make (Float.of_Z l) (Float.of_Z t)
                         (Float.of_Z w) (Float.of_Z h))
          = Some (QRect.make l t w h)) as Ha.
  { unfold toAlignedRect. cbn [QRectF.xp QRectF.yp QRectF.w QRectF.h].
    destruct (whole_float (Float.of_Z l) l) as (-> & _ & _);
      auto using of_Z_whole.
    destruct (whole_float (Float.of_Z t) t) as (-> & _ & _);
      auto using of_Z_whole.
    destruct (whole_float (Float.of_Z l + Float.of_Z w) (l + w))
      as (_ & -> & _).
    { change (Float.two52 / 8) with 562949953421312. lia. }
    { auto using add_whole. }
    destruct (whole_float (Float.of_Z t + Float.of_Z h) (t + h))
      as (_ & -> & _).
    { change (Float.two52 / 8) with 562949953421312. lia. }
    { auto using add_whole. }
    simpl. do 2 f_equal; lia. }
  assert (toPoint (QPointF.make (Float.of_Z px) (Float.of_Z py))
          = Some (QPoint.make px py)) as Hp.
  { unfold toPoint. cbn [QPointF.x QPointF.y].
    destruct (whole_float (Float.of_Z px) px) as (_ & _ & ->);
      auto using of_Z_whole.
    destruct (whole_float (Float.of_Z py) py) as (_ & _ & ->);
      auto using of_Z_whole. }
  set (item := RectItem _ _ pen).
  rewrite !(get_rect_even_dimensions_unfold item _ _ _ Ha Hp).
  split; [unfold QRect.translate, QRect.make; simpl; do 2 f_equal; lia |].
  f_equal. cbv zeta.
  unfold QRect.translate, QRect.make, QRect.setWidth, QRect.setHeight,
    QRect.width, QRect.height. simpl.
  replace (l + w - 1 + px - (l + px) + 1) with w by lia.
  replace (t + h - 1 + py - (t + py) + 1) with h by lia.
  pose proof (Z.mod_pos_bound w 2 ltac:(lia)) as Bw.
  pose proof (Z.mod_pos_bound h 2 ltac:(lia)) as Bh.
  destruct (Z.eqb_spec (w mod 2) 1) as [Ew | Ew],
    (Z.eqb_spec (h mod 2) 1) as [Eh | Eh]; simpl; f_equal; lia.
Qed.

End WholePixels.

(** A rectangle of 641 by 480 pixels at the origin of an item placed at
    (10, 20): 642 by 480 with even sides. *)
Lemma get_rect_even_dimensions_whole_witness :
  let item : @QGraphicsRectItem unit :=
    RectItem (QGraphicsItem.make (QPointF.make 10 20) ∅ 0)
             (QRectF.make 0 0 641 480) None in
  get_rect_even_dimensions item false = Some (QRect.make 10 20 641 480)
  /\ get_rect_even_dimensions item true = Some (QRect.make 10 20 642 480).
Proof.
  assert (Forall (fun n => Z.abs n <= 536870912) [0; 0; 641; 480; 10; 20])
    as Hr by (repeat constructor; simpl; lia).
  exact (get_rect_even_dimensions_whole (QPen := unit)
           0 0 641 480 10 20 ∅ 0%float None Hr).
Defined.

